(** * Saga orchestration core: SagaContext, SagaStep, Saga, SagaOrchestrator

    A shallow embedding of the four classes of the saga subsystem and the
    properties its design document states about them.

    Conventions of the embedding.
    - A JavaScript object that is mutated in place is a record that the
      model function returns updated; an array of references to such
      objects ([executedSteps] in [Saga.compensate]) is a list of positions
      in the array that owns them ([this.steps]).
    - [new Date()], [Date.now()] and [Math.random()] read an oracle carried by
      the environment; the environment also collects the console output,
      one event per printed line (separator lines are dropped).
    - An [async] function that settles is a total function returning a
      [Completion]: [Returned v] for a fulfilled promise, [Thrown e] for a
      rejected one.  The sequencer awaits every call before the next, so
      the order of effects is the order of the calls.
    - A [Map] is a [gmap].  An object literal used as a dictionary
      ([this.data] of a Context, [byStatus] and [bySaga]) is a plain object:
      its own properties are a [gmap string _], and reading, writing and
      [in] go on to [Object.prototype] as they do in JavaScript. *)

From stdpp Require Import base option list gmap strings pretty.

Open Scope string_scope.
Open Scope list_scope.
Open Scope Z_scope.

(** ** Values, errors, completions *)

#[warnings="-register-all"]
Inductive JsValue :=
| VUndefined
| VNull
| VBool (b : bool)
| VNum (z : Z)
| VStr (s : string)
| VObject (props : list (string * JsValue)).

(** An [Error] object; only its [message] is ever read. *)
Record JsError := mkError { message : string }.

Inductive Completion (A : Type) :=
| Returned (a : A)
| Thrown (e : JsError).
Arguments Returned {A} a.
Arguments Thrown {A} e.

(** ** Console output *)

Inductive Event :=
| StepExecuting (stepName : string)
| StepCompleted (stepName : string)
| StepFailed (stepName msg : string)
| CompensationSkipped (stepName : string)
| CompensationUndefined (stepName : string)
| StepCompensating (stepName : string)
| CompensationCompleted (stepName : string)
| CompensationFailed (stepName msg : string)
| SagaStarting (sagaName sagaId : string)
| SagaCompleted (sagaName : string) (duration : Z)
| SagaFailed (sagaName msg : string)
| CompensationStarting (sagaName : string)
| CompensationError (stepName msg : string)
| CompensationFinished (sagaName : string) (duration : Z)
| SagaRegistered (sagaName : string)
| OrchestratorExecuting (sagaName : string)
| OrchestratorFailed (msg : string)
| HistoryCleared.

(** ** Environment: clock, random source, console *)

Record Env := mkEnv {
  clock : nat -> Z;          (* the n-th reading of the system clock, in ms *)
  entropy : nat -> string;   (* the n-th [Math.random().toString(36).substr(2, 9)] *)
  ticks : nat;               (* clock readings made so far *)
  draws : nat;               (* random draws made so far *)
  console : list Event       (* lines printed so far, oldest first *)
}.

Definition now (env : Env) : Z * Env :=
  (clock env (ticks env),
   mkEnv (clock env) (entropy env) (S (ticks env)) (draws env) (console env)).

Definition random (env : Env) : string * Env :=
  (entropy env (draws env),
   mkEnv (clock env) (entropy env) (ticks env) (S (draws env)) (console env)).

Definition log (ev : Event) (env : Env) : Env :=
  mkEnv (clock env) (entropy env) (ticks env) (draws env) (console env ++ [ev]).

(** ** Plain objects used as dictionaries *)

(** A property that is not an object's own is looked for on its prototype,
    for an object literal [Object.prototype]. *)
Module ObjectPrototype.

(** The methods of [Object.prototype], by name. *)
Definition methods : list string :=
  ["constructor"; "__defineGetter__"; "__defineSetter__"; "hasOwnProperty";
   "__lookupGetter__"; "__lookupSetter__"; "isPrototypeOf";
   "propertyIsEnumerable"; "toString"; "valueOf"; "toLocaleString"].

Definition isMethod (key : string) : bool := bool_decide (key ∈ methods).

(** The names [Object.prototype] answers to: its methods and the accessor
    [__proto__]. *)
Definition inherits (key : string) : bool :=
  String.eqb key "__proto__" || isMethod key.

(** What a method gives when it is turned into a string, as Node prints
    it; [constructor] is the function [Object]. *)
Definition methodText (key : string) : string :=
  "function " +:+ (if String.eqb key "constructor" then "Object" else key)
  +:+ "() { [native code] }".

End ObjectPrototype.

(** ** SagaContext *)

Module SagaContext.

(** The prototype of [this.data]: [Object.prototype] from the start, and
    whatever an assignment to [__proto__] has put in its place, [null] or
    a plain object, which is itself on [Object.prototype]. *)
Inductive Prototype :=
| ProtoObject
| ProtoNull
| ProtoPlain (props : list (string * JsValue)).

(** [this.data]: its own properties and its prototype. *)
Record DataObject := mkData {
  own : gmap string JsValue;
  prototype : Prototype
}.

(** What reading a property gives: a value that was stored, or one of the
    built-in objects reached through [Object.prototype] (a method under its
    name, or [Object.prototype] itself). *)
Inductive Property :=
| Stored (v : JsValue)
| Native (name : string).

(** The own property [key] of the plain object [VObject props]; of two
    properties of one name the first counts. *)
Definition plainOwn (props : list (string * JsValue)) (key : string)
    : option JsValue :=
  (list_to_map props : gmap string JsValue) !! key.

(** A read that reaches [Object.prototype], from an object whose prototype
    is [p]: the accessor [__proto__] gives that prototype. *)
Definition fromObjectPrototype (p : Prototype) (key : string) : Property :=
  if String.eqb key "__proto__" then
    match p with
    | ProtoPlain props => Stored (VObject props)
    | _ => Native "Object.prototype"
    end
  else if ObjectPrototype.isMethod key then Native key
  else Stored VUndefined.

(** [d[key]] *)
Definition readData (key : string) (d : DataObject) : Property :=
  match own d !! key with
  | Some v => Stored v
  | None =>
      match prototype d with
      | ProtoNull => Stored VUndefined
      | ProtoObject => fromObjectPrototype ProtoObject key
      | ProtoPlain props =>
          match plainOwn props key with
          | Some v => Stored v
          | None => fromObjectPrototype (ProtoPlain props) key
          end
      end
  end.

(** The setter of [__proto__]: an object or [null] becomes the prototype,
    any other value is ignored. *)
Definition setPrototype (value : JsValue) (d : DataObject) : DataObject :=
  match value with
  | VObject props => mkData (own d) (ProtoPlain props)
  | VNull => mkData (own d) ProtoNull
  | _ => d
  end.

(** [d[key] = value]: an own property is overwritten; otherwise the
    assignment makes one, unless it finds the setter of [__proto__] on the
    prototype chain. *)
Definition writeData (key : string) (value : JsValue) (d : DataObject)
    : DataObject :=
  let store := mkData (<[key := value]> (own d)) (prototype d) in
  match own d !! key with
  | Some _ => store
  | None =>
      if String.eqb key "__proto__" then
        match prototype d with
        | ProtoNull => store
        | ProtoObject => setPrototype value d
        | ProtoPlain props =>
            match plainOwn props key with
            | Some _ => store
            | None => setPrototype value d
            end
        end
      else store
  end.

(** [key in d] *)
Definition inData (key : string) (d : DataObject) : bool :=
  bool_decide (is_Some (own d !! key))
  || match prototype d with
     | ProtoNull => false
     | ProtoObject => ObjectPrototype.inherits key
     | ProtoPlain props =>
         bool_decide (is_Some (plainOwn props key))
         || ObjectPrototype.inherits key
     end.

Record ExecutedStep := mkExecutedStep {
  stepName : string;
  result : JsValue;
  timestamp : Z
}.

Record t := mk {
  data : DataObject;
  executedSteps : list ExecutedStep;
  status : string;
  error : option JsError;
  startTime : option Z;
  endTime : option Z;
  sagaId : string;
  (* history variable, not a field of the class: every value [status]
     has held, oldest first *)
  statusHistory : list string
}.

Definition with_data (d : DataObject) (c : t) : t :=
  mk d (executedSteps c) (status c) (error c) (startTime c) (endTime c)
     (sagaId c) (statusHistory c).

Definition with_status (s : string) (c : t) : t :=
  mk (data c) (executedSteps c) s (error c) (startTime c) (endTime c)
     (sagaId c) (statusHistory c ++ [s]).

Definition with_error (e : option JsError) (c : t) : t :=
  mk (data c) (executedSteps c) (status c) e (startTime c) (endTime c)
     (sagaId c) (statusHistory c).

Definition with_startTime (ts : Z) (c : t) : t :=
  mk (data c) (executedSteps c) (status c) (error c) (Some ts) (endTime c)
     (sagaId c) (statusHistory c).

Definition with_endTime (ts : Z) (c : t) : t :=
  mk (data c) (executedSteps c) (status c) (error c) (startTime c) (Some ts)
     (sagaId c) (statusHistory c).

Definition generateSagaId (env : Env) : string * Env :=
  let '(ms, env) := now env in
  let '(r, env) := random env in
  ("saga_" +:+ pretty ms +:+ "_" +:+ r, env).

(** [this.data = { ...initialData }]: the own properties of [initialData]
    in a new object literal. *)
Definition new (initialData : gmap string JsValue) (env : Env) : t * Env :=
  let '(id, env) := generateSagaId env in
  (mk (mkData initialData ProtoObject) [] "PENDING" None None None id
      ["PENDING"], env).

Definition set (key : string) (value : JsValue) (c : t) : t :=
  with_data (writeData key value (data c)) c.

Definition get (key : string) (c : t) : Property := readData key (data c).

Definition has (key : string) (c : t) : bool := inData key (data c).

(** [{ ...this.data }]: the own properties. *)
Definition getAll (c : t) : gmap string JsValue := own (data c).

(** [markStepExecuted(stepName, result = {})]: the default applies when
    the argument is [undefined]. *)
Definition markStepExecuted (name : string) (res : JsValue) (ts : Z) (c : t) : t :=
  let res' := match res with VUndefined => VObject [] | _ => res end in
  mk (data c) (executedSteps c ++ [mkExecutedStep name res' ts]) (status c)
     (error c) (startTime c) (endTime c) (sagaId c) (statusHistory c).

Definition getExecutedSteps (c : t) : list ExecutedStep := executedSteps c.

Definition setStatus (s : string) (c : t) : t := with_status s c.
Definition getStatus (c : t) : string := status c.
Definition setError (e : JsError) (c : t) : t := with_error (Some e) c.
Definition getError (c : t) : option JsError := error c.

Definition markStarted (ts : Z) (c : t) : t :=
  with_status "IN_PROGRESS" (with_startTime ts c).

Definition markCompleted (ts : Z) (c : t) : t :=
  with_status "COMPLETED" (with_endTime ts c).

Definition markFailed (e : JsError) (ts : Z) (c : t) : t :=
  with_error (Some e) (with_status "FAILED" (with_endTime ts c)).

Definition markCompensating (c : t) : t := with_status "COMPENSATING" c.

Definition markCompensated (ts : Z) (c : t) : t :=
  with_status "COMPENSATED" (with_endTime ts c).

(** [getDuration]: reads the clock only while [endTime] is unset. *)
Definition getDuration (c : t) (env : Env) : Z * Env :=
  match startTime c with
  | None => (0, env)
  | Some start =>
      match endTime c with
      | Some stop => (stop - start, env)
      | None => let '(stop, env) := now env in (stop - start, env)
      end
  end.

(** The operations of a Context as data, to speak of arbitrary sequences
    of calls.  Operations that read the clock carry the reading. *)
Inductive Op :=
| OpSet (key : string) (value : JsValue)
| OpMarkStepExecuted (name : string) (res : JsValue) (ts : Z)
| OpSetStatus (s : string)
| OpSetError (e : JsError)
| OpMarkStarted (ts : Z)
| OpMarkCompleted (ts : Z)
| OpMarkFailed (e : JsError) (ts : Z)
| OpMarkCompensating
| OpMarkCompensated (ts : Z).

Definition apply (op : Op) (c : t) : t :=
  match op with
  | OpSet k v => set k v c
  | OpMarkStepExecuted n r ts => markStepExecuted n r ts c
  | OpSetStatus s => setStatus s c
  | OpSetError e => setError e c
  | OpMarkStarted ts => markStarted ts c
  | OpMarkCompleted ts => markCompleted ts c
  | OpMarkFailed e ts => markFailed e ts c
  | OpMarkCompensating => markCompensating c
  | OpMarkCompensated ts => markCompensated ts c
  end.

Definition applyAll (ops : list Op) (c : t) : t :=
  foldl (fun acc op => apply op acc) c ops.

(** The state machine of the design: one step of it, and a whole path. *)
Definition transition (a b : string) : bool :=
  (String.eqb a "PENDING" && String.eqb b "IN_PROGRESS")
  || (String.eqb a "IN_PROGRESS" && String.eqb b "COMPLETED")
  || (String.eqb a "IN_PROGRESS" && String.eqb b "FAILED")
  || (String.eqb a "FAILED" && String.eqb b "COMPENSATING")
  || (String.eqb a "COMPENSATING" && String.eqb b "COMPENSATED").

Fixpoint followsMachine (path : list string) : bool :=
  match path with
  | a :: (b :: _) as rest => transition a b && followsMachine rest
  | _ => true
  end.

Definition terminal (s : string) : bool :=
  String.eqb s "COMPLETED" || String.eqb s "COMPENSATED".

End SagaContext.

(** ** SagaStep *)

Module SagaStep.

(** What awaiting a step's action or compensation yields.  The function
    receives the context and reaches it through [set]: it settles with
    the key/value data it leaves behind, and a value or an error. *)
Inductive Settled :=
| Resolved (data : SagaContext.DataObject) (value : JsValue)
| Rejected (data : SagaContext.DataObject) (reason : JsError).

Record t := mk {
  name : string;
  action : SagaContext.t -> Settled;
  compensation : option (SagaContext.t -> Settled);
  executed : bool;
  compensated : bool;
  result : JsValue;
  error : option JsError
}.

(** [new SagaStep(name, action, compensation = null)] *)
Definition new (n : string) (act : SagaContext.t -> Settled)
    (comp : option (SagaContext.t -> Settled)) : t :=
  mk n act comp false false VNull None.

Definition execute (step : t) (context : SagaContext.t) (env : Env)
    : t * SagaContext.t * Env * Completion JsValue :=
  let env := log (StepExecuting (name step)) env in
  match action step context with
  | Resolved d v =>
      let context := SagaContext.with_data d context in
      let step := mk (name step) (action step) (compensation step)
                     true (compensated step) v (error step) in
      let '(ts, env) := now env in
      let context := SagaContext.markStepExecuted (name step) v ts context in
      let env := log (StepCompleted (name step)) env in
      (step, context, env, Returned v)
  | Rejected d e =>
      let context := SagaContext.with_data d context in
      let step := mk (name step) (action step) (compensation step)
                     (executed step) (compensated step) (result step) (Some e) in
      let env := log (StepFailed (name step) (message e)) env in
      (step, context, env, Thrown e)
  end.

Definition compensate (step : t) (context : SagaContext.t) (env : Env)
    : t * SagaContext.t * Env * Completion JsValue :=
  if negb (executed step) then
    (step, context, log (CompensationSkipped (name step)) env, Returned VUndefined)
  else
    match compensation step with
    | None =>
        (step, context, log (CompensationUndefined (name step)) env,
         Returned VUndefined)
    | Some comp =>
        let env := log (StepCompensating (name step)) env in
        match comp context with
        | Resolved d v =>
            let context := SagaContext.with_data d context in
            let step := mk (name step) (action step) (compensation step)
                           (executed step) true (result step) (error step) in
            let env := log (CompensationCompleted (name step)) env in
            (step, context, env, Returned v)
        | Rejected d e =>
            let context := SagaContext.with_data d context in
            let env := log (CompensationFailed (name step) (message e)) env in
            (step, context, env, Thrown e)
        end
    end.

Definition isExecuted (step : t) : bool := executed step.
Definition isCompensated (step : t) : bool := compensated step.
Definition getResult (step : t) : JsValue := result step.
Definition getError (step : t) : option JsError := error step.

Definition reset (step : t) : t :=
  mk (name step) (action step) (compensation step) false false VNull None.

End SagaStep.

(** ** Saga *)

Module Saga.

Record t := mk {
  name : string;
  steps : list SagaStep.t
}.

Definition new (n : string) : t := mk n [].

Definition addStep (n : string) (act : SagaContext.t -> SagaStep.Settled)
    (comp : option (SagaContext.t -> SagaStep.Settled)) (saga : t) : t :=
  mk (name saga) (steps saga ++ [SagaStep.new n act comp]).

(** [for (const step of this.steps) await step.execute(context)]: the
    first rejection leaves the loop; the steps after it are untouched. *)
Fixpoint executeSteps (todo : list SagaStep.t) (context : SagaContext.t) (env : Env)
    : list SagaStep.t * SagaContext.t * Env * Completion unit :=
  match todo with
  | [] => ([], context, env, Returned tt)
  | step :: rest =>
      match SagaStep.execute step context env with
      | (step', context, env, Returned _) =>
          let '(rest', context, env, c) := executeSteps rest context env in
          (step' :: rest', context, env, c)
      | (step', context, env, Thrown e) =>
          (step' :: rest, context, env, Thrown e)
      end
  end.

(** [this.steps.filter(step => step.isExecuted())], as references: the
    positions in [this.steps] of the steps kept, counted from [i]. *)
Fixpoint filterExecuted (i : nat) (ss : list SagaStep.t) : list nat :=
  match ss with
  | [] => []
  | step :: rest =>
      if SagaStep.isExecuted step then i :: filterExecuted (S i) rest
      else filterExecuted (S i) rest
  end.

(** [for (let i = executedSteps.length - 1; i >= 0; i--)], entered with
    [n = i + 1].  A rejected compensation is caught, printed, and the
    loop goes on. *)
Fixpoint compensateLoop (n : nat) (executedSteps : list nat)
    (ss : list SagaStep.t) (context : SagaContext.t) (env : Env)
    : list SagaStep.t * SagaContext.t * Env :=
  match n with
  | O => (ss, context, env)
  | S i =>
      match executedSteps !! i ≫= fun r => pair r <$> ss !! r with
      | None => compensateLoop i executedSteps ss context env
      | Some (r, step) =>
          let '(step', context, env, c) := SagaStep.compensate step context env in
          let env :=
            match c with
            | Returned _ => env
            | Thrown e => log (CompensationError (SagaStep.name step) (message e)) env
            end in
          compensateLoop i executedSteps (<[r := step']> ss) context env
      end
  end.

Definition compensate (saga : t) (context : SagaContext.t) (env : Env)
    : t * SagaContext.t * Env :=
  let context := SagaContext.markCompensating context in
  let env := log (CompensationStarting (name saga)) env in
  let executedSteps := filterExecuted 0 (steps saga) in
  let '(ss, context, env) :=
    compensateLoop (length executedSteps) executedSteps (steps saga) context env in
  let '(ts, env) := now env in
  let context := SagaContext.markCompensated ts context in
  let '(d, env) := SagaContext.getDuration context env in
  (mk (name saga) ss, context, log (CompensationFinished (name saga) d) env).

Definition execute (saga : t) (initialData : gmap string JsValue) (env : Env)
    : t * Env * Completion SagaContext.t :=
  let '(context, env) := SagaContext.new initialData env in
  let '(ts, env) := now env in
  let context := SagaContext.markStarted ts context in
  let env := log (SagaStarting (name saga) (SagaContext.sagaId context)) env in
  match executeSteps (steps saga) context env with
  | (ss, context, env, Returned _) =>
      let '(ts, env) := now env in
      let context := SagaContext.markCompleted ts context in
      let '(d, env) := SagaContext.getDuration context env in
      (mk (name saga) ss, log (SagaCompleted (name saga) d) env, Returned context)
  | (ss, context, env, Thrown e) =>
      let env := log (SagaFailed (name saga) (message e)) env in
      let '(ts, env) := now env in
      let context := SagaContext.markFailed e ts context in
      let '(saga', context, env) := compensate (mk (name saga) ss) context env in
      (saga', env, Returned context)
  end.

Definition getSteps (saga : t) : list SagaStep.t := steps saga.
Definition getStepCount (saga : t) : nat := length (steps saga).
Definition reset (saga : t) : t := mk (name saga) (SagaStep.reset <$> steps saga).

End Saga.

(** ** SagaOrchestrator *)

Module SagaOrchestrator.

Record ExecutionRecord := mkRecord {
  sagaName : string;
  sagaId : string;
  status : string;
  duration : Z;
  executedSteps : nat;
  error : option string;
  timestamp : Z
}.

Record t := mk {
  sagas : gmap string Saga.t;
  executionHistory : list ExecutionRecord;
  maxHistorySize : nat
}.

(** What a count table holds under a key: a count, or the string that
    adding 1 to something that is not a number gives. *)
Inductive Cell :=
| Count (n : nat)
| Text (s : string).

Record Statistics := mkStatistics {
  totalExecutions : nat;
  registeredSagas : nat;
  byStatus : gmap string Cell;
  bySaga : gmap string Cell;
  averageDuration : Z
}.

Definition new : t := mk ∅ [] 100.

Definition registerSaga (name : string) (saga : Saga.t) (o : t) (env : Env) : t * Env :=
  (mk (<[name := saga]> (sagas o)) (executionHistory o) (maxHistorySize o),
   log (SagaRegistered name) env).

(** [push] then, when the array has outgrown [maxHistorySize], one [shift]. *)
Definition recordExecution (name : string) (context : SagaContext.t) (d : Z)
    (o : t) (env : Env) : t * Env :=
  let '(ts, env) := now env in
  let record :=
    mkRecord name (SagaContext.sagaId context) (SagaContext.getStatus context) d
             (length (SagaContext.getExecutedSteps context))
             (message <$> SagaContext.getError context) ts in
  let history := executionHistory o ++ [record] in
  let history :=
    if decide (maxHistorySize o < length history)%nat then tail history else history in
  (mk (sagas o) history (maxHistorySize o), env).

(** The saga object in the registry is the one that ran: its steps keep
    the flags the run left on them. *)
Definition executeSaga (name : string) (initialData : gmap string JsValue)
    (o : t) (env : Env) : t * Env * Completion SagaContext.t :=
  match sagas o !! name with
  | None => (o, env, Thrown (mkError ("Saga not found: " +:+ name)))
  | Some saga =>
      let env := log (OrchestratorExecuting name) env in
      let '(startTime, env) := now env in
      match Saga.execute saga initialData env with
      | (saga', env, Returned context) =>
          let o := mk (<[name := saga']> (sagas o)) (executionHistory o)
                      (maxHistorySize o) in
          let '(stop, env) := now env in
          let '(o, env) := recordExecution name context (stop - startTime) o env in
          (o, env, Returned context)
      | (saga', env, Thrown e) =>
          let o := mk (<[name := saga']> (sagas o)) (executionHistory o)
                      (maxHistorySize o) in
          (o, log (OrchestratorFailed (message e)) env, Thrown e)
      end
  end.

(** [Array.prototype.slice(start)] with an integer [start]: a negative
    [start] counts from the end, and both ends are clamped. *)
Definition slice {A : Type} (start : Z) (l : list A) : list A :=
  let len := Z.of_nat (length l) in
  let k := if start <? 0 then Z.max (len + start) 0 else Z.min start len in
  drop (Z.to_nat k) l.

Definition getExecutionHistory (limit : Z) (o : t) : list ExecutionRecord :=
  slice (- limit) (executionHistory o).

(** [getExecutionHistory()] with the parameter's default. *)
Definition getExecutionHistoryDefault (o : t) : list ExecutionRecord :=
  getExecutionHistory 10 o.

(** [counts[key] = (counts[key] || 0) + 1] on a table that is an object
    literal.  An own count goes up by one, and a key met for the first
    time gets the count 1, unless [Object.prototype] answers to it: a
    method is truthy, and adding 1 to it gives its text followed by "1",
    which is stored and grows by a "1" on every later turn; for
    [__proto__] the value read is [Object.prototype], the sum is the string
    "[object Object]1", and the setter ignores the string, so the table
    stays as it was. *)
Definition increment (key : string) (counts : gmap string Cell)
    : gmap string Cell :=
  match counts !! key with
  | Some (Count n) => <[key := Count (n + 1)]> counts
  | Some (Text s) =>
      <[key := if String.eqb s "" then Count 1 else Text (s +:+ "1")]> counts
  | None =>
      if String.eqb key "__proto__" then counts
      else if ObjectPrototype.isMethod key then
        <[key := Text (ObjectPrototype.methodText key +:+ "1")]> counts
      else <[key := Count 1]> counts
  end.

(** [Math.round(total / n)] for integers and [n > 0]: the nearest
    integer, a half rounding up. *)
Definition roundDiv (total : Z) (n : nat) : Z :=
  (2 * total + Z.of_nat n) `div` (2 * Z.of_nat n).

Definition getStatistics (o : t) : Statistics :=
  let '(st, sg, totalDuration) :=
    foldl (fun '(st, sg, total) record =>
             (increment (status record) st,
              increment (sagaName record) sg,
              total + duration record))
          (∅, ∅, 0) (executionHistory o) in
  let n := length (executionHistory o) in
  mkStatistics n (size (sagas o)) st sg
    (if decide (0 < n)%nat then roundDiv totalDuration n else 0).

(** The registered names, as a set: the insertion order of the [Map] is not
    modelled. *)
Definition getRegisteredSagas (o : t) : gset string := dom (sagas o).
Definition getSaga (name : string) (o : t) : option Saga.t := sagas o !! name.

Definition clearHistory (o : t) (env : Env) : t * Env :=
  (mk (sagas o) [] (maxHistorySize o), log HistoryCleared env).

(** The counts of a table added up; a cell that is not a number adds
    nothing. *)
Definition sumValues (counts : gmap string Cell) : nat :=
  map_fold (fun _ cell acc =>
              match cell with Count n => (n + acc)%nat | Text _ => acc end)
           0%nat counts.

End SagaOrchestrator.

(** ** InventoryService *)

(** The inventory collaborator of the payment saga.  [await this.delay(ms)]
    only lets time pass and is left out; the lines the service prints are
    returned beside the result, oldest first. *)

Module InventoryService.

Record Product := mkProduct {
  productId : string;
  name : string;
  stock : Z
}.

(** One line of an order: [{ productId, quantity }]. *)
Record Item := mkItem {
  itemProductId : string;
  quantity : Z
}.

Record ReservedItem := mkReservedItem {
  reservedProductId : string;
  productName : string;
  reservedQuantity : Z
}.

Record Reservation := mkReservation {
  reservationId : string;
  orderId : string;
  items : list ReservedItem;
  status : string;
  timestamp : Z;
  releasedAt : option Z
}.

Record t := mk {
  inventory : gmap string Product;
  reservations : gmap string Reservation
}.

Inductive Line :=
| Reserving (order : string)
| ReservedLine (q : Z) (productName : string)
| InventoryReserved (id : string)
| Releasing (id : string)
| AlreadyReleasedLine (id : string)
(* the line prints [product.productName], a property the products of the
   inventory do not have *)
| ReleasedLine (q : Z) (productName : JsValue)
| InventoryReleased (id : string).

Inductive ReleaseResult :=
| AlreadyReleased
| Released (id : string).

Definition initializeInventory (s : t) : t :=
  mk (<["PROD_004" := mkProduct "PROD_004" "Monitor" 5]>
       (<["PROD_003" := mkProduct "PROD_003" "Keyboard" 30]>
         (<["PROD_002" := mkProduct "PROD_002" "Mouse" 50]>
           (<["PROD_001" := mkProduct "PROD_001" "Laptop" 10]> (inventory s)))))
     (reservations s).

Definition new : t := initializeInventory (mk ∅ ∅).

(** The first loop of [reserveInventory]: the error of the first line that
    names an unknown product or asks for more than is in stock. *)
Fixpoint checkAvailable (inv : gmap string Product) (order : list Item)
    : option JsError :=
  match order with
  | [] => None
  | item :: rest =>
      match inv !! itemProductId item with
      | None => Some (mkError ("Product not found: " +:+ itemProductId item))
      | Some product =>
          if stock product <? quantity item then
            Some (mkError ("Insufficient stock for " +:+ name product
                           +:+ ". Available: " +:+ pretty (stock product)
                           +:+ ", Requested: " +:+ pretty (quantity item)))
          else checkAvailable inv rest
      end
  end.

(** The second loop: [product.stock -= item.quantity] line by line.  Reading
    [stock] of a product that is not there is a [TypeError] that leaves the
    loop. *)
Fixpoint reserveItems (inv : gmap string Product) (order : list Item)
    : gmap string Product * list ReservedItem * list Line * option JsError :=
  match order with
  | [] => (inv, [], [], None)
  | item :: rest =>
      match inv !! itemProductId item with
      | None => (inv, [], [], Some (mkError "Cannot read properties of undefined"))
      | Some product =>
          let inv :=
            <[itemProductId item :=
                mkProduct (productId product) (name product)
                          (stock product - quantity item)]> inv in
          let '(inv, reserved, lines, err) := reserveItems inv rest in
          (inv,
           mkReservedItem (itemProductId item) (name product) (quantity item)
             :: reserved,
           ReservedLine (quantity item) (name product) :: lines,
           err)
      end
  end.

Definition reserveInventory (order : string) (lines : list Item) (s : t) (env : Env)
    : t * Env * list Line * Completion Reservation :=
  match checkAvailable (inventory s) lines with
  | Some e => (s, env, [Reserving order], Thrown e)
  | None =>
      let '(ms, env) := now env in
      let '(r, env) := random env in
      let id := "RES_" +:+ pretty ms +:+ "_" +:+ r in
      let '(ts, env) := now env in
      match reserveItems (inventory s) lines with
      | (inv, reserved, out, Some e) =>
          (mk inv (reservations s), env, Reserving order :: out, Thrown e)
      | (inv, reserved, out, None) =>
          let reservation := mkReservation id order reserved "RESERVED" ts None in
          (mk inv (<[id := reservation]> (reservations s)), env,
           Reserving order :: out ++ [InventoryReserved id],
           Returned reservation)
      end
  end.

(** The loop of [releaseInventory]: a line whose product is gone is skipped. *)
Fixpoint releaseItems (inv : gmap string Product) (reserved : list ReservedItem)
    : gmap string Product * list Line :=
  match reserved with
  | [] => (inv, [])
  | item :: rest =>
      match inv !! reservedProductId item with
      | None => releaseItems inv rest
      | Some product =>
          let inv :=
            <[reservedProductId item :=
                mkProduct (productId product) (name product)
                          (stock product + reservedQuantity item)]> inv in
          let '(inv, lines) := releaseItems inv rest in
          (inv, ReleasedLine (reservedQuantity item) VUndefined :: lines)
      end
  end.

Definition releaseInventory (id : string) (s : t) (env : Env)
    : t * Env * list Line * Completion ReleaseResult :=
  match reservations s !! id with
  | None =>
      (s, env, [Releasing id], Thrown (mkError ("Reservation not found: " +:+ id)))
  | Some reservation =>
      if String.eqb (status reservation) "RELEASED" then
        (s, env, [Releasing id; AlreadyReleasedLine id], Returned AlreadyReleased)
      else
        let '(inv, out) := releaseItems (inventory s) (items reservation) in
        let '(ts, env) := now env in
        let reservation :=
          mkReservation (reservationId reservation) (orderId reservation)
            (items reservation) "RELEASED" (timestamp reservation) (Some ts) in
        (mk inv (<[id := reservation]> (reservations s)), env,
         Releasing id :: out ++ [InventoryReleased id],
         Returned (Released id))
  end.

Definition getStock (product : string) (s : t) : Z :=
  match inventory s !! product with
  | Some p => stock p
  | None => 0
  end.

Definition getReservation (id : string) (s : t) : option Reservation :=
  reservations s !! id.

(** The quantity an order asks of one product, over all its lines. *)
Definition requested (product : string) (order : list Item) : Z :=
  foldr (fun item acc =>
           if String.eqb (itemProductId item) product then quantity item + acc
           else acc) 0 order.

End InventoryService.

(** ** Sample sagas, used to run the model on concrete inputs *)

Module Samples.

Definition env0 : Env :=
  mkEnv (fun n => 1000 + Z.of_nat n) (fun _ => "k3j9x0q1z") 0 0 [].

(** An action that records its key in the context and resolves. *)
Definition succeed (key : string) (c : SagaContext.t) : SagaStep.Settled :=
  SagaStep.Resolved (SagaContext.data (SagaContext.set key (VBool true) c))
    (VStr key).

(** An action that rejects without touching the context. *)
Definition fail (msg : string) (c : SagaContext.t) : SagaStep.Settled :=
  SagaStep.Rejected (SagaContext.data c) (mkError msg).

(** A compensation that takes back the key its action recorded. *)
Definition undo (key : string) (c : SagaContext.t) : SagaStep.Settled :=
  SagaStep.Resolved (SagaContext.data (SagaContext.set key (VBool false) c))
    VUndefined.

(** [A, B, C], every action resolves. *)
Definition sagaABC : Saga.t :=
  Saga.addStep "C" (succeed "c") (Some (undo "c"))
    (Saga.addStep "B" (succeed "b") (Some (undo "b"))
      (Saga.addStep "A" (succeed "a") (Some (undo "a")) (Saga.new "abc"))).

(** [A, B, C], the action of [C] rejects. *)
Definition sagaFailC : Saga.t :=
  Saga.addStep "C" (fail "insufficient stock") (Some (undo "c"))
    (Saga.addStep "B" (succeed "b") (Some (undo "b"))
      (Saga.addStep "A" (succeed "a") (Some (undo "a")) (Saga.new "failC"))).

(** [A, B, C]: [C] rejects, and so does the compensation of [B]. *)
Definition sagaFailCompB : Saga.t :=
  Saga.addStep "C" (fail "insufficient stock") (Some (undo "c"))
    (Saga.addStep "B" (succeed "b") (Some (fail "refund failed"))
      (Saga.addStep "A" (succeed "a") (Some (undo "a")) (Saga.new "failCompB"))).

(** [A] without compensation, then [B] whose action rejects. *)
Definition sagaNoComp : Saga.t :=
  Saga.addStep "B" (fail "declined") (Some (undo "b"))
    (Saga.addStep "A" (succeed "a") None (Saga.new "noComp")).

(** A saga whose only action resolves while the key [go] is absent from
    the initial data and rejects otherwise. *)
Definition toggle (c : SagaContext.t) : SagaStep.Settled :=
  if SagaContext.has "go" c then fail "stopped" c else succeed "a" c.

Definition sagaToggle : Saga.t :=
  Saga.addStep "B" (succeed "b") (Some (undo "b"))
    (Saga.addStep "A" toggle (Some (undo "a")) (Saga.new "toggle")).

(** Step [B] of [sagaFailCompB] as its successful execution leaves it. *)
Definition executedB : SagaStep.t :=
  SagaStep.mk "B" (succeed "b") (Some (fail "refund failed"))
    true false (VStr "b") None.

(** A step whose action rejects, before it has run. *)
Definition failingC : SagaStep.t :=
  SagaStep.new "C" (fail "insufficient stock") (Some (undo "c")).

Definition context0 : SagaContext.t :=
  SagaContext.markStarted 1001 (SagaContext.new ∅ env0).1.

(** An orchestrator that knows [sagaFailC] under the name [order]. *)
Definition orchestrator : SagaOrchestrator.t :=
  (SagaOrchestrator.registerSaga "order" sagaFailC SagaOrchestrator.new env0).1.

(** 101 recordings of one and the same finished Context. *)
Definition runs101 : list (string * SagaContext.t * Z) :=
  replicate 101 ("order", SagaContext.markCompleted 1002 context0, 2).

End Samples.

(** ** Observations on a run *)

(** What was printed between two environments of one run. *)
Definition emitted (env env' : Env) : list Event :=
  drop (length (console env)) (console env').

(** Every call of [step.execute] prints [StepExecuting] and then invokes
    the forward action. *)
Definition actionInvoked (ev : Event) : option string :=
  match ev with StepExecuting n => Some n | _ => None end.

(** Every call of [step.compensate] prints exactly one of these three
    lines first. *)
Definition compensateCall (ev : Event) : option string :=
  match ev with
  | CompensationSkipped n | CompensationUndefined n | StepCompensating n => Some n
  | _ => None
  end.

(** The compensation action itself is invoked right after [StepCompensating]. *)
Definition compensationInvoked (ev : Event) : option string :=
  match ev with StepCompensating n => Some n | _ => None end.

Definition actionsInvoked (out : list Event) : list string := omap actionInvoked out.
Definition compensateCalls (out : list Event) : list string := omap compensateCall out.
Definition compensationsInvoked (out : list Event) : list string :=
  omap compensationInvoked out.

Definition hasCompensation (step : SagaStep.t) : bool :=
  bool_decide (is_Some (SagaStep.compensation step)).

(** The position (from 0) of the first step whose forward action rejects
    when the steps run in order from [context]; [None] when every action
    resolves.  [tick] is the number of clock readings made before. *)
Fixpoint firstFailure (clk : nat -> Z) (tick : nat) (todo : list SagaStep.t)
    (context : SagaContext.t) : option nat :=
  match todo with
  | [] => None
  | step :: rest =>
      match SagaStep.action step context with
      | SagaStep.Rejected _ _ => Some O
      | SagaStep.Resolved d v =>
          S <$> firstFailure clk (S tick) rest
                  (SagaContext.markStepExecuted (SagaStep.name step) v (clk tick)
                     (SagaContext.with_data d context))
      end
  end.

(** The same for a whole run of [Saga.execute] on [initialData]. *)
Definition firstFailing (saga : Saga.t) (initialData : gmap string JsValue)
    (env : Env) : option nat :=
  let '(context, env1) := SagaContext.new initialData env in
  let '(ts, env2) := now env1 in
  firstFailure (clock env) (ticks env2) (Saga.steps saga)
    (SagaContext.markStarted ts context).

(** The context a run returns; a run that throws returns none. *)
Definition returnedContext {A : Type} (c : Completion A) : option A :=
  match c with Returned a => Some a | Thrown _ => None end.

(** C1 as the design states it, for one run: with step [k + 1] the first to
    fail, [step.compensate] is called on the [k] steps before it, last
    first, the steps flagged executed are those [k], the forward actions
    invoked are those of the first [k + 1] steps, and the steps after the
    failing one are left as they were. *)
Definition rollsBackInReverse (saga : Saga.t) (initialData : gmap string JsValue)
    (env : Env) : Prop :=
  forall k, firstFailing saga initialData env = Some k ->
    let '(saga', env', _) := Saga.execute saga initialData env in
    let out := emitted env env' in
    compensateCalls out = reverse (SagaStep.name <$> take k (Saga.steps saga))
    /\ compensationsInvoked out =
         reverse (SagaStep.name <$> filter hasCompensation (take k (Saga.steps saga)))
    /\ Saga.filterExecuted 0 (Saga.steps saga') = seq 0 k
    /\ actionsInvoked out = SagaStep.name <$> take (S k) (Saga.steps saga)
    /\ drop (S k) (Saga.steps saga') = drop (S k) (Saga.steps saga).

(** C7 as the design states it, for one sequence of operations on a fresh
    Context. *)
Definition statusesFollowMachine (ops : list SagaContext.Op) : Prop :=
  forall initialData env,
    SagaContext.followsMachine
      (SagaContext.statusHistory
         (SagaContext.applyAll ops (SagaContext.new initialData env).1)) = true.

(** The entry one recording leaves in the history. *)
Definition entryOf (run : string * SagaContext.t * Z) (ts : Z)
    : SagaOrchestrator.ExecutionRecord :=
  let '(name, context, d) := run in
  SagaOrchestrator.mkRecord name (SagaContext.sagaId context)
    (SagaContext.status context) d (length (SagaContext.executedSteps context))
    (message <$> SagaContext.error context) ts.

(** The entries of consecutive recordings, oldest first. *)
Definition entries (runs : list (string * SagaContext.t * Z)) (env : Env)
    : list SagaOrchestrator.ExecutionRecord :=
  imap (fun i run => entryOf run (clock env (ticks env + i)%nat)) runs.

Definition recordAll (runs : list (string * SagaContext.t * Z))
    (o : SagaOrchestrator.t) (env : Env) : SagaOrchestrator.t * Env :=
  foldl (fun '(o, env) '(name, context, d) =>
           SagaOrchestrator.recordExecution name context d o env)
        (o, env) runs.

(** What the forward pass and the rollback leave alone on a Context. *)
Definition sameStatus (c c' : SagaContext.t) : Prop :=
  SagaContext.status c' = SagaContext.status c
  /\ SagaContext.statusHistory c' = SagaContext.statusHistory c
  /\ SagaContext.error c' = SagaContext.error c
  /\ SagaContext.startTime c' = SagaContext.startTime c
  /\ SagaContext.endTime c' = SagaContext.endTime c
  /\ SagaContext.sagaId c' = SagaContext.sagaId c.

(** The rollback also leaves the execution log alone. *)
Definition sameLog (c c' : SagaContext.t) : Prop :=
  sameStatus c c'
  /\ SagaContext.executedSteps c' = SagaContext.executedSteps c.

(** [env'] is [env] after printing [out], on the same clock. *)
Definition printed (env env' : Env) (out : list Event) : Prop :=
  clock env' = clock env /\ entropy env' = entropy env
  /\ console env' = console env ++ out.

(** Two step lists that differ at most in the run-time fields that
    [step.execute] writes. *)
Definition sameDefinitions (ss ss' : list SagaStep.t) : Prop :=
  SagaStep.name <$> ss' = SagaStep.name <$> ss
  /\ SagaStep.compensation <$> ss' = SagaStep.compensation <$> ss
  /\ SagaStep.compensated <$> ss' = SagaStep.compensated <$> ss.

(** What the rollback never changes on a step. *)
Definition view (step : SagaStep.t) : string * bool * bool :=
  (SagaStep.name step, SagaStep.executed step, hasCompensation step).

Definition callName (step : SagaStep.t) : option string :=
  Some (SagaStep.name step).

(** The steps whose compensation action [step.compensate] does invoke. *)
Definition compensable (step : SagaStep.t) : bool :=
  SagaStep.executed step && hasCompensation step.

Definition invokedName (step : SagaStep.t) : option string :=
  if compensable step then Some (SagaStep.name step) else None.

(** ** The rollback as the design describes it *)

(** What became of the compensation of one executed step. *)
Inductive Attempt :=
| NoCompensation (stepName : string)
| Compensated (stepName : string)
| CompensationThrew (stepName : string) (reason : JsError).

Definition attemptName (attempt : Attempt) : string :=
  match attempt with
  | NoCompensation n | Compensated n | CompensationThrew n _ => n
  end.

(** The error of an attempt that threw. *)
Definition thrown (attempt : Attempt) : option (string * JsError) :=
  match attempt with
  | CompensationThrew n e => Some (n, e)
  | _ => None
  end.

(** The rollback of one step: nothing for a step that is not flagged
    executed; otherwise its compensation, if it has one, is applied to the
    Context.  A compensation that returns marks the step compensated; one
    that throws is noted with its error and leaves the step as it was.  In
    both cases the Context keeps what the compensation wrote. *)
Definition rollbackStep (step : SagaStep.t) (context : SagaContext.t)
    : SagaStep.t * list Attempt * SagaContext.t :=
  if negb (SagaStep.executed step) then (step, [], context)
  else
    match SagaStep.compensation step with
    | None => (step, [NoCompensation (SagaStep.name step)], context)
    | Some comp =>
        match comp context with
        | SagaStep.Resolved d _ =>
            (SagaStep.mk (SagaStep.name step) (SagaStep.action step)
                         (SagaStep.compensation step) (SagaStep.executed step)
                         true (SagaStep.result step) (SagaStep.error step),
             [Compensated (SagaStep.name step)],
             SagaContext.with_data d context)
        | SagaStep.Rejected d e =>
            (step, [CompensationThrew (SagaStep.name step) e],
             SagaContext.with_data d context)
        end
    end.

(** The rollback of a list of steps: the later steps first, then the
    step at the head, on the Context the later ones leave, whatever became
    of their compensations.  It gives the steps in their order, the
    attempts in the order they were made, and the Context at the end. *)
Fixpoint rollback (steps : list SagaStep.t) (context : SagaContext.t)
    : list SagaStep.t * list Attempt * SagaContext.t :=
  match steps with
  | [] => ([], [], context)
  | step :: rest =>
      let '(rest', later, context) := rollback rest context in
      let '(step', attempt, context) := rollbackStep step context in
      (step' :: rest', later ++ attempt, context)
  end.

(** The lines of one attempt: those [step.compensate] prints, and for a
    compensation that threw the line of the [catch] in [Saga.compensate]. *)
Definition attemptLines (attempt : Attempt) : list Event :=
  match attempt with
  | NoCompensation n => [CompensationUndefined n]
  | Compensated n => [StepCompensating n; CompensationCompleted n]
  | CompensationThrew n e =>
      [StepCompensating n; CompensationFailed n (message e);
       CompensationError n (message e)]
  end.

(** The attempts as the output shows them: [step.compensate] prints one of
    these lines when it is done with an executed step, the last two after
    the compensation has returned or thrown. *)
Definition outcome (ev : Event) : option Attempt :=
  match ev with
  | CompensationUndefined n => Some (NoCompensation n)
  | CompensationCompleted n => Some (Compensated n)
  | CompensationFailed n msg => Some (CompensationThrew n (mkError msg))
  | _ => None
  end.

Definition outcomes (out : list Event) : list Attempt := omap outcome out.

(** The errors the [catch] of [Saga.compensate] received. *)
Definition caughtError (ev : Event) : option (string * JsError) :=
  match ev with
  | CompensationError n msg => Some (n, mkError msg)
  | _ => None
  end.

Definition caught (out : list Event) : list (string * JsError) :=
  omap caughtError out.

Definition logAll (out : list Event) (env : Env) : Env :=
  foldl (fun env ev => log ev env) env out.

(** C4 as the design states it, for one call of [step.execute]: when the
    forward action fails the error is stored on the step, the executed
    flag is false afterwards, the execution log is as it was and the error
    is thrown; when the action succeeds the flag is true, the log has one
    more entry and the result is returned. *)
Definition failureLeavesUnexecuted (step : SagaStep.t) (context : SagaContext.t)
    (env : Env) : Prop :=
  let '(step', context', _, c) := SagaStep.execute step context env in
  match SagaStep.action step context with
  | SagaStep.Rejected _ e =>
      SagaStep.getError step' = Some e
      /\ SagaStep.isExecuted step' = false
      /\ SagaContext.getExecutedSteps context' = SagaContext.getExecutedSteps context
      /\ c = Thrown e
  | SagaStep.Resolved _ v =>
      SagaStep.isExecuted step' = true
      /\ length (SagaContext.getExecutedSteps context')
         = S (length (SagaContext.getExecutedSteps context))
      /\ c = Returned v
  end.

(** ** Further observations *)

(** The Context and the environment with which the forward pass of
    [Saga.execute] starts. *)
Definition startOf (saga : Saga.t) (initialData : gmap string JsValue) (env : Env)
    : SagaContext.t * Env :=
  let '(context, env) := SagaContext.new initialData env in
  let '(ts, env) := now env in
  let context := SagaContext.markStarted ts context in
  (context, log (SagaStarting (Saga.name saga) (SagaContext.sagaId context)) env).

(** The error of the first forward action that rejects, if one does. *)
Fixpoint firstError (clk : nat -> Z) (tick : nat) (todo : list SagaStep.t)
    (context : SagaContext.t) : option JsError :=
  match todo with
  | [] => None
  | step :: rest =>
      match SagaStep.action step context with
      | SagaStep.Rejected _ e => Some e
      | SagaStep.Resolved d v =>
          firstError clk (S tick) rest
            (SagaContext.markStepExecuted (SagaStep.name step) v (clk tick)
               (SagaContext.with_data d context))
      end
  end.

(** How many steps of a run execute: all of them, or those before the
    first failure. *)
Definition executedCount (saga : Saga.t) (initialData : gmap string JsValue)
    (env : Env) : nat :=
  default (length (Saga.steps saga)) (firstFailing saga initialData env).

(** The invariant of the step flags: compensated only if executed. *)
Definition flagsConsistent (step : SagaStep.t) : Prop :=
  SagaStep.isCompensated step = true -> SagaStep.isExecuted step = true.

(** A saga assembled by chained [addStep] calls. *)
Definition build (name : string)
    (specs : list (string * (SagaContext.t -> SagaStep.Settled)
                   * option (SagaContext.t -> SagaStep.Settled))) : Saga.t :=
  foldl (fun saga '(n, act, comp) => Saga.addStep n act comp saga)
        (Saga.new name) specs.

(** The history never holds more than [maxHistorySize] entries. *)
Definition bounded (o : SagaOrchestrator.t) : Prop :=
  (length (SagaOrchestrator.executionHistory o)
     <= SagaOrchestrator.maxHistorySize o)%nat.

Definition totalDuration (history : list SagaOrchestrator.ExecutionRecord) : Z :=
  foldr (fun record acc => SagaOrchestrator.duration record + acc) 0 history.

(** A table that holds counts only. *)
Definition numeric (counts : gmap string SagaOrchestrator.Cell) : Prop :=
  forall key s, counts !! key <> Some (SagaOrchestrator.Text s).

(** A count as a table of counts stores it: no entry for zero. *)
Definition stored (n : nat) : option nat :=
  if decide (n = 0%nat) then None else Some n.

(** How many entries of a history have [key] under the projection [f]. *)
Definition occurrences (f : SagaOrchestrator.ExecutionRecord -> string)
    (key : string) (history : list SagaOrchestrator.ExecutionRecord) : nat :=
  length (filter (fun record => f record = key) history).

(** The quantity a reservation holds of one product, over all its lines. *)
Definition reservedTotal (product : string)
    (reserved : list InventoryService.ReservedItem) : Z :=
  foldr (fun item acc =>
           if String.eqb (InventoryService.reservedProductId item) product
           then InventoryService.reservedQuantity item + acc
           else acc) 0 reserved.

(** A product with its stock moved by [delta]. *)
Definition restock (delta : Z) (p : InventoryService.Product)
    : InventoryService.Product :=
  InventoryService.mkProduct (InventoryService.productId p)
    (InventoryService.name p) (InventoryService.stock p + delta).

(** The error with which a run fails, if it does. *)
Definition runError (saga : Saga.t) (initialData : gmap string JsValue)
    (env : Env) : option JsError :=
  let '(context0, env0) := startOf saga initialData env in
  firstError (clock env0) (ticks env0) (Saga.steps saga) context0.

(** Inputs for the further properties. *)
Module MoreSamples.

(** [sagaFailC] as its failed and rolled back run leaves it. *)
Definition sagaRolledBack : Saga.t :=
  (Saga.execute Samples.sagaFailC ∅ Samples.env0).1.1.

(** [sagaToggle] as its completed first run leaves it, and the environment
    after that run. *)
Definition sagaCompleted : Saga.t :=
  (Saga.execute Samples.sagaToggle ∅ Samples.env0).1.1.

Definition envAfterFirstRun : Env :=
  (Saga.execute Samples.sagaToggle ∅ Samples.env0).1.2.

Definition stop : gmap string JsValue := {["go" := VBool true]}.

(** Two monitors and a mouse, each product on one line. *)
Definition order : list InventoryService.Item :=
  [InventoryService.mkItem "PROD_004" 2; InventoryService.mkItem "PROD_002" 1].

(** Three monitors, twice: each line alone is in stock (5), both are not. *)
Definition doubleOrder : list InventoryService.Item :=
  [InventoryService.mkItem "PROD_004" 3; InventoryService.mkItem "PROD_004" 3].

(** Ten monitors: more than the five in stock. *)
Definition bigOrder : list InventoryService.Item :=
  [InventoryService.mkItem "PROD_002" 1; InventoryService.mkItem "PROD_004" 10].

(** A history of three runs lasting 10, 11 and 14 ms. *)
Definition threeRuns : SagaOrchestrator.t :=
  SagaOrchestrator.mk ∅
    [SagaOrchestrator.mkRecord "order" "saga_1" "COMPLETED" 10 3 None 1010;
     SagaOrchestrator.mkRecord "order" "saga_2" "COMPENSATED" 11 2
       (Some "insufficient stock") 1030;
     SagaOrchestrator.mkRecord "refund" "saga_3" "COMPLETED" 14 1 None 1050]
    100.

End MoreSamples.

(** * Properties *)

(** ** Environment and observation lemmas *)

Lemma printed_refl env : printed env env [].
Proof. unfold printed. by rewrite app_nil_r. Qed.

Lemma printed_trans env1 env2 env3 out1 out2 :
  printed env1 env2 out1 -> printed env2 env3 out2 ->
  printed env1 env3 (out1 ++ out2).
Proof.
  intros (Hc1 & He1 & Ho1) (Hc2 & He2 & Ho2). unfold printed.
  rewrite Hc2, He2, Ho2, Ho1, Hc1, He1. by rewrite app_assoc.
Qed.

Lemma printed_log ev env : printed env (log ev env) [ev].
Proof. done. Qed.

Lemma printed_emitted env env' out : printed env env' out -> emitted env env' = out.
Proof. intros (_ & _ & Ho). unfold emitted. rewrite Ho. apply drop_app_length. Qed.

Lemma actionsInvoked_app o1 o2 :
  actionsInvoked (o1 ++ o2) = actionsInvoked o1 ++ actionsInvoked o2.
Proof. apply omap_app. Qed.

Lemma compensateCalls_app o1 o2 :
  compensateCalls (o1 ++ o2) = compensateCalls o1 ++ compensateCalls o2.
Proof. apply omap_app. Qed.

Lemma compensationsInvoked_app o1 o2 :
  compensationsInvoked (o1 ++ o2) = compensationsInvoked o1 ++ compensationsInvoked o2.
Proof. apply omap_app. Qed.

Lemma sameStatus_refl c : sameStatus c c.
Proof. by repeat split. Qed.

Lemma sameStatus_trans c1 c2 c3 : sameStatus c1 c2 -> sameStatus c2 c3 -> sameStatus c1 c3.
Proof.
  unfold sameStatus. intros (?&?&?&?&?&?) (?&?&?&?&?&?).
  repeat split; congruence.
Qed.

Lemma sameLog_refl c : sameLog c c.
Proof. split; [apply sameStatus_refl|done]. Qed.

Lemma sameLog_trans c1 c2 c3 : sameLog c1 c2 -> sameLog c2 c3 -> sameLog c1 c3.
Proof.
  intros [H1 L1] [H2 L2]. split; [by eapply sameStatus_trans|congruence].
Qed.

(** ** SagaStep.execute and SagaStep.compensate, case by case *)

Lemma execute_resolved step context env d v :
  SagaStep.action step context = SagaStep.Resolved d v ->
  SagaStep.execute step context env =
    (SagaStep.mk (SagaStep.name step) (SagaStep.action step)
       (SagaStep.compensation step) true (SagaStep.compensated step) v
       (SagaStep.error step),
     SagaContext.markStepExecuted (SagaStep.name step) v (clock env (ticks env))
       (SagaContext.with_data d context),
     log (StepCompleted (SagaStep.name step))
       (now (log (StepExecuting (SagaStep.name step)) env)).2,
     Returned v).
Proof. intros H. unfold SagaStep.execute. by rewrite H. Qed.

Lemma execute_rejected step context env d e :
  SagaStep.action step context = SagaStep.Rejected d e ->
  SagaStep.execute step context env =
    (SagaStep.mk (SagaStep.name step) (SagaStep.action step)
       (SagaStep.compensation step) (SagaStep.executed step)
       (SagaStep.compensated step) (SagaStep.result step) (Some e),
     SagaContext.with_data d context,
     log (StepFailed (SagaStep.name step) (message e))
       (log (StepExecuting (SagaStep.name step)) env),
     Thrown e).
Proof. intros H. unfold SagaStep.execute. by rewrite H. Qed.

(** ** The forward pass *)

Lemma executeSteps_frame todo : forall context env ss context' env' c,
  Saga.executeSteps todo context env = (ss, context', env', c) ->
  sameDefinitions todo ss /\ sameStatus context context'
  /\ exists out, printed env env' out /\ compensateCalls out = [].
Proof.
  induction todo as [|step rest IH]; intros context env ss context' env' c; simpl.
  - intros [= <- <- <- <-]. repeat split; try done.
    exists []. split; [apply printed_refl | done].
  - destruct (SagaStep.action step context) as [d v|d e] eqn:Ha.
    + rewrite (execute_resolved _ _ _ _ _ Ha).
      destruct (Saga.executeSteps rest _ _) as [[[rest' c1] e1] r1] eqn:Hrest.
      intros [= <- <- <- <-].
      destruct (IH _ _ _ _ _ _ Hrest) as ((Hn & Hc & Hd) & Hs & out & Hp & Hcalls).
      split; [|split].
      * unfold sameDefinitions. by rewrite !fmap_cons, Hn, Hc, Hd.
      * eapply sameStatus_trans; [|exact Hs]. by repeat split.
      * exists ([StepExecuting (SagaStep.name step);
                 StepCompleted (SagaStep.name step)] ++ out).
        split; [|by rewrite compensateCalls_app, Hcalls].
        eapply printed_trans; [|exact Hp].
        unfold printed. simpl. by rewrite <- app_assoc.
    + rewrite (execute_rejected _ _ _ _ _ Ha).
      intros [= <- <- <- <-]. repeat split; try done.
      exists [StepExecuting (SagaStep.name step);
              StepFailed (SagaStep.name step) (message e)].
      split; [|done]. unfold printed. simpl. by rewrite <- app_assoc.
Qed.

Lemma executeSteps_succeeds todo : forall context env ss context' env' c,
  firstFailure (clock env) (ticks env) todo context = None ->
  Saga.executeSteps todo context env = (ss, context', env', c) ->
  c = Returned tt
  /\ length (SagaContext.executedSteps context') =
       (length (SagaContext.executedSteps context) + length todo)%nat
  /\ SagaStep.executed <$> ss = replicate (length todo) true.
Proof.
  induction todo as [|step rest IH]; intros context env ss context' env' c; simpl.
  - intros _ [= <- <- <- <-]. repeat split; lia.
  - destruct (SagaStep.action step context) as [d v|d e] eqn:Ha; [|done].
    intros Hff. rewrite (execute_resolved _ _ _ _ _ Ha).
    destruct (Saga.executeSteps rest _ _) as [[[rest' c1] e1] r1] eqn:Hrest.
    intros [= <- <- <- <-].
    destruct (firstFailure _ _ rest _) eqn:Hrec; [done|].
    specialize (fun H => IH _ _ _ _ _ _ H Hrest).
    destruct (IH Hrec) as (-> & Hlen & Hex).
    split; [done|]. split.
    + rewrite Hlen. destruct v; simpl; rewrite length_app; simpl; lia.
    + by rewrite fmap_cons, Hex.
Qed.

Lemma executeSteps_fails todo : forall context env ss context' env' c k,
  firstFailure (clock env) (ticks env) todo context = Some k ->
  Saga.executeSteps todo context env = (ss, context', env', c) ->
  (exists e, c = Thrown e)
  /\ SagaStep.executed <$> ss =
       replicate k true ++ (SagaStep.executed <$> drop k todo)
  /\ drop (S k) ss = drop (S k) todo
  /\ length (SagaContext.executedSteps context') =
       (length (SagaContext.executedSteps context) + k)%nat
  /\ exists out, printed env env' out
       /\ actionsInvoked out = SagaStep.name <$> take (S k) todo.
Proof.
  induction todo as [|step rest IH]; intros context env ss context' env' c k; simpl.
  - done.
  - destruct (SagaStep.action step context) as [d v|d e] eqn:Ha.
    + intros Hff. rewrite (execute_resolved _ _ _ _ _ Ha).
      destruct (Saga.executeSteps rest _ _) as [[[rest' c1] e1] r1] eqn:Hrest.
      intros [= <- <- <- <-].
      destruct (firstFailure _ _ rest _) as [j|] eqn:Hrec; [|done].
      injection Hff as <-.
      specialize (fun H => IH _ _ _ _ _ _ j H Hrest).
      destruct (IH Hrec) as (Hc & Hex & Hdrop & Hlen & out & Hp & Hinv).
      split; [done|]. split; [by rewrite fmap_cons, Hex|]. split; [done|]. split.
      * rewrite Hlen. destruct v; simpl; rewrite length_app; simpl; lia.
      * exists ([StepExecuting (SagaStep.name step);
                 StepCompleted (SagaStep.name step)] ++ out).
        split.
        -- eapply printed_trans; [|exact Hp].
           unfold printed. simpl. by rewrite <- app_assoc.
        -- rewrite actionsInvoked_app, Hinv. done.
    + intros [= <-]. rewrite (execute_rejected _ _ _ _ _ Ha).
      intros [= <- <- <- <-]. split; [by eexists|]. simpl.
      split; [done|]. split; [by rewrite drop_0|]. split; [lia|].
      exists [StepExecuting (SagaStep.name step);
              StepFailed (SagaStep.name step) (message e)].
      split; [|done]. unfold printed. simpl. by rewrite <- app_assoc.
Qed.

(** ** The rollback *)

Lemma compensate_step step context env step' context' env' c :
  SagaStep.compensate step context env = (step', context', env', c) ->
  view step' = view step
  /\ sameLog context context'
  /\ exists out, printed env env' out
       /\ compensateCalls out = option_list (callName step)
       /\ compensationsInvoked out = option_list (invokedName step)
       /\ actionsInvoked out = [].
Proof.
  unfold SagaStep.compensate, invokedName, compensable, view, hasCompensation.
  destruct (SagaStep.executed step) eqn:Hex; simpl.
  - destruct (SagaStep.compensation step) as [comp|] eqn:Hcomp; simpl.
    + destruct (comp context) as [d v|d e]; intros [= <- <- <- <-]; simpl;
        rewrite ?Hex, ?Hcomp; (split; [done|]); (split; [by repeat split|]).
      * exists [StepCompensating (SagaStep.name step);
                CompensationCompleted (SagaStep.name step)].
        split; [|done]. unfold printed. simpl. by rewrite <- app_assoc.
      * exists [StepCompensating (SagaStep.name step);
                CompensationFailed (SagaStep.name step) (message e)].
        split; [|done]. unfold printed. simpl. by rewrite <- app_assoc.
    + intros [= <- <- <- <-]. rewrite Hex, Hcomp.
      split; [done|]. split; [apply sameLog_refl|].
      exists [CompensationUndefined (SagaStep.name step)]. by split.
  - intros [= <- <- <- <-]. rewrite Hex.
    split; [done|]. split; [apply sameLog_refl|].
    exists [CompensationSkipped (SagaStep.name step)]. by split.
Qed.

Lemma lookup_insert_view (g : SagaStep.t -> option string)
    (ss : list SagaStep.t) (r : nat) step step' :
  ss !! r = Some step -> g step' = g step ->
  forall j, <[r := step']> ss !! j ≫= g = ss !! j ≫= g.
Proof.
  intros Hr Hg j. destruct (decide (r = j)) as [<-|Hne].
  - rewrite list_lookup_insert_eq by (by eapply lookup_lt_Some).
    by rewrite Hr.
  - by rewrite list_lookup_insert_ne.
Qed.

Lemma omap_ext_list {A B} (f g : A -> option B) (l : list A) :
  (forall x, f x = g x) -> omap f l = omap g l.
Proof.
  intros H. induction l as [|x l IH]; [done|].
  csimpl. rewrite H. destruct (g x); [|done]. by f_equal.
Qed.

Lemma compensateLoop_spec n : forall refs ss context env ss' context' env',
  Saga.compensateLoop n refs ss context env = (ss', context', env') ->
  view <$> ss' = view <$> ss
  /\ (forall j : nat, j ∉ take n refs -> ss' !! j = ss !! j)
  /\ sameLog context context'
  /\ exists out, printed env env' out
       /\ compensateCalls out =
            reverse (omap (fun r => ss !! r ≫= callName) (take n refs))
       /\ compensationsInvoked out =
            reverse (omap (fun r => ss !! r ≫= invokedName) (take n refs))
       /\ actionsInvoked out = [].
Proof.
  induction n as [|i IH]; intros refs ss context env ss' context' env'; simpl.
  - intros [= <- <- <-]. split; [done|]. split; [done|].
    split; [apply sameLog_refl|].
    exists []. split; [apply printed_refl|done].
  - destruct (refs !! i) as [r|] eqn:Hr; simpl.
    + rewrite (take_S_r _ _ _ Hr), !omap_app, !reverse_app. simpl.
      destruct (ss !! r) as [step|] eqn:Hstep; simpl.
      * destruct (SagaStep.compensate step context env)
          as [[[step1 c1] e1] r1] eqn:Hcomp.
        destruct (compensate_step _ _ _ _ _ _ _ Hcomp)
          as (Hview & Hst & out1 & Hp1 & Hcalls1 & Hinv1 & Hact1).
        intros Hloop.
        destruct (IH _ _ _ _ _ _ _ Hloop)
          as (Hviews & Hkeep & Hst' & out2 & Hp2 & Hcalls2 & Hinv2 & Hact2).
        assert (Hcall : callName step1 = callName step).
        { unfold callName. injection Hview as -> _ _. done. }
        assert (Hinvn : invokedName step1 = invokedName step).
        { unfold invokedName, compensable. injection Hview as -> -> ->. done. }
        split; [|split; [|split]].
        -- rewrite Hviews, list_fmap_insert, Hview.
           apply list_insert_id. by rewrite list_lookup_fmap, Hstep.
        -- intros j Hj. apply not_elem_of_app in Hj as [Hj1 Hj2].
           rewrite (Hkeep j Hj1). apply list_lookup_insert_ne.
           intros ->. apply Hj2. by left.
        -- by eapply sameLog_trans.
        -- rewrite (omap_ext_list _ _ _ (lookup_insert_view callName _ _ _ _ Hstep Hcall))
             in Hcalls2.
           rewrite (omap_ext_list _ _ _ (lookup_insert_view invokedName _ _ _ _ Hstep Hinvn))
             in Hinv2.
           destruct r1 as [v|e].
           ++ exists (out1 ++ out2). split; [by eapply printed_trans|].
              rewrite compensateCalls_app, compensationsInvoked_app.
              rewrite actionsInvoked_app, Hcalls1, Hcalls2, Hinv1, Hinv2, Hact1, Hact2.
              split; [done|]. by destruct (invokedName step).
           ++ exists ((out1 ++ [CompensationError (SagaStep.name step) (message e)])
                      ++ out2).
              split.
              ** eapply printed_trans; [|exact Hp2].
                 eapply printed_trans; [exact Hp1|apply printed_log].
              ** rewrite !compensateCalls_app, !compensationsInvoked_app.
                 rewrite !actionsInvoked_app, Hact1, Hact2.
                 rewrite Hcalls1, Hcalls2, Hinv1, Hinv2. simpl.
                 rewrite !app_nil_r. split; [done|]. by destruct (invokedName step).
      * intros Hloop.
        destruct (IH _ _ _ _ _ _ _ Hloop) as (Hv & Hk & Hs & out & Hp & Hc & Hi & Ha).
        split; [done|]. split.
        { intros j Hj. apply Hk. intros Hin. apply Hj, elem_of_app. by left. }
        split; [done|]. exists out. by rewrite Hc, Hi.
    + intros Hloop.
      destruct (IH _ _ _ _ _ _ _ Hloop) as (Hv & Hk & Hs & out & Hp & Hc & Hi & Ha).
      apply lookup_ge_None in Hr.
      rewrite !take_ge in * by lia.
      split; [done|]. split; [done|]. split; [done|]. exists out.
      by rewrite Hc, Hi.
Qed.

(** ** The steps selected for rollback *)

Lemma filterExecuted_omap (g : SagaStep.t -> option string) (ss : list SagaStep.t) :
  forall pre : list SagaStep.t,
    omap (fun r => (pre ++ ss) !! r ≫= g) (Saga.filterExecuted (length pre) ss)
    = omap g (filter SagaStep.isExecuted ss).
Proof.
  induction ss as [|step rest IH]; intros pre; [done|].
  assert (Hrest : omap (fun r => (pre ++ step :: rest) !! r ≫= g)
                    (Saga.filterExecuted (S (length pre)) rest)
                  = omap g (filter SagaStep.isExecuted rest)).
  { specialize (IH (pre ++ [step])).
    rewrite <- app_assoc, length_app in IH. simpl in IH.
    by replace (length pre + 1)%nat with (S (length pre)) in IH by lia. }
  simpl. destruct (SagaStep.isExecuted step) eqn:Hex.
  - rewrite filter_cons_True by (by apply Is_true_true). csimpl.
    rewrite list_lookup_middle by done. simpl.
    rewrite Hrest. done.
  - rewrite filter_cons_False by (by apply Is_true_false). done.
Qed.

Lemma omap_callName (ss : list SagaStep.t) : omap callName ss = SagaStep.name <$> ss.
Proof. induction ss as [|s ss IH]; [done|]. csimpl. by rewrite IH. Qed.

Lemma omap_invokedName (ss : list SagaStep.t) :
  omap invokedName (filter SagaStep.isExecuted ss)
  = SagaStep.name <$> filter compensable ss.
Proof.
  induction ss as [|s ss IH]; [done|].
  unfold compensable, SagaStep.isExecuted in *.
  destruct (SagaStep.executed s) eqn:Hex.
  - rewrite filter_cons_True by (by apply Is_true_true). csimpl.
    unfold invokedName at 1, compensable. rewrite Hex. simpl.
    destruct (hasCompensation s) eqn:Hc.
    + rewrite (filter_cons_True (λ s, SagaStep.executed s && hasCompensation s))
        by (apply Is_true_true; by rewrite Hex, Hc).
      by rewrite fmap_cons, IH.
    + rewrite (filter_cons_False (λ s, SagaStep.executed s && hasCompensation s))
        by (apply Is_true_false; by rewrite Hex, Hc).
      done.
  - rewrite filter_cons_False by (by apply Is_true_false).
    rewrite (filter_cons_False (λ s, SagaStep.executed s && hasCompensation s))
      by (apply Is_true_false; by rewrite Hex).
    done.
Qed.

Lemma filterExecuted_flags (ss : list SagaStep.t) : forall ss' i,
  SagaStep.executed <$> ss = SagaStep.executed <$> ss' ->
  Saga.filterExecuted i ss = Saga.filterExecuted i ss'.
Proof.
  induction ss as [|s ss IH]; intros [|s' ss'] i; try done.
  rewrite !fmap_cons. intros [= Hs Hss]. simpl.
  unfold SagaStep.isExecuted. rewrite Hs, (IH _ _ Hss). done.
Qed.

Lemma filterExecuted_prefix (ss : list SagaStep.t) : forall k m i,
  SagaStep.executed <$> ss = replicate k true ++ replicate m false ->
  Saga.filterExecuted i ss = seq i k /\ filter SagaStep.isExecuted ss = take k ss.
Proof.
  induction ss as [|s ss IH]; intros k m i.
  - destruct k; [done|]. simpl. done.
  - rewrite fmap_cons. destruct k as [|k]; simpl.
    + destruct m as [|m]; [done|]. simpl. intros [= Hs Hss].
      destruct (IH 0%nat m (S i)) as [Hf Hl]; [done|].
      unfold SagaStep.isExecuted at 1. rewrite Hs, Hf.
      rewrite filter_cons_False by (by apply Is_true_false).
      by rewrite Hl, take_0.
    + intros [= Hs Hss]. destruct (IH k m (S i)) as [Hf Hl]; [done|].
      unfold SagaStep.isExecuted at 1. rewrite Hs, Hf.
      rewrite filter_cons_True by (by apply Is_true_true).
      by rewrite Hl.
Qed.

Lemma view_executed (ss ss' : list SagaStep.t) :
  view <$> ss' = view <$> ss -> SagaStep.executed <$> ss' = SagaStep.executed <$> ss.
Proof.
  intros H. apply (f_equal (fmap (fun v : string * bool * bool => v.1.2))) in H.
  by rewrite <- !list_fmap_compose in H.
Qed.


Lemma getDuration_ended context ts :
  SagaContext.endTime context = Some ts ->
  exists d, forall env, SagaContext.getDuration context env = (d, env).
Proof.
  intros H. unfold SagaContext.getDuration.
  destruct (SagaContext.startTime context); [|by eexists]. rewrite H. by eexists.
Qed.

(** What the rollback of a saga prints and leaves behind, for any flags
    and any outcomes of the compensations. *)
Lemma compensate_spec saga context env saga' context' env' :
  Saga.compensate saga context env = (saga', context', env') ->
  view <$> Saga.steps saga' = view <$> Saga.steps saga
  /\ (forall j : nat, j ∉ Saga.filterExecuted 0 (Saga.steps saga) ->
        Saga.steps saga' !! j = Saga.steps saga !! j)
  /\ Saga.name saga' = Saga.name saga
  /\ SagaContext.status context' = "COMPENSATED"
  /\ SagaContext.statusHistory context'
     = SagaContext.statusHistory context ++ ["COMPENSATING"; "COMPENSATED"]
  /\ SagaContext.error context' = SagaContext.error context
  /\ SagaContext.executedSteps context' = SagaContext.executedSteps context
  /\ exists out, printed env env' out
     /\ compensateCalls out
        = reverse (SagaStep.name <$> filter SagaStep.isExecuted (Saga.steps saga))
     /\ compensationsInvoked out
        = reverse (SagaStep.name <$> filter compensable (Saga.steps saga))
     /\ actionsInvoked out = [].
Proof.
  unfold Saga.compensate.
  destruct (Saga.compensateLoop _ _ _ _ _) as [[ss c1] e1] eqn:Hloop.
  apply compensateLoop_spec in Hloop
    as (Hviews & Hkeep & ((Hst & Hh & Herr & _) & Hlog) & out & Hp & Hcalls & Hinv & Hact).
  rewrite take_ge in Hcalls, Hinv, Hkeep by done.
  pose proof (filterExecuted_omap callName (Saga.steps saga) []) as Hc0.
  pose proof (filterExecuted_omap invokedName (Saga.steps saga) []) as Hi0.
  cbn [app length] in Hc0, Hi0.
  rewrite Hc0, omap_callName in Hcalls. rewrite Hi0, omap_invokedName in Hinv.
  simpl.
  destruct (getDuration_ended
    (SagaContext.markCompensated (clock e1 (ticks e1)) c1) _ eq_refl) as [d Hd].
  rewrite Hd. intros [= <- <- <-]. simpl.
  split; [done|]. split; [done|]. split; [done|]. split; [done|]. split.
  { rewrite Hh. simpl. by rewrite <- app_assoc. }
  split; [by rewrite Herr|]. split; [by rewrite Hlog|].
  exists ([CompensationStarting (Saga.name saga)] ++ out
          ++ [CompensationFinished (Saga.name saga) d]).
  split.
  - eapply printed_trans; [apply printed_log|].
    eapply printed_trans; [exact Hp|]. unfold printed. by simpl.
  - rewrite !compensateCalls_app, !compensationsInvoked_app, !actionsInvoked_app.
    rewrite Hcalls, Hinv, Hact. simpl. by rewrite !app_nil_r.
Qed.

(** ** Saga.execute *)

Lemma printed_inj env env' out1 out2 :
  printed env env' out1 -> printed env env' out2 -> out1 = out2.
Proof.
  intros (_ & _ & H1) (_ & _ & H2). rewrite H1 in H2. by apply app_inv_head in H2.
Qed.

Lemma execute_outcome saga d env saga' env' c :
  Saga.execute saga d env = (saga', env', c) ->
  exists context out, c = Returned context /\ printed env env' out /\
  match firstFailing saga d env with
  | None =>
      SagaContext.statusHistory context = ["PENDING"; "IN_PROGRESS"; "COMPLETED"]
      /\ SagaContext.status context = "COMPLETED"
      /\ length (SagaContext.executedSteps context) = length (Saga.steps saga)
      /\ compensateCalls out = []
      /\ SagaContext.error context = None
  | Some k =>
      SagaContext.statusHistory context =
        ["PENDING"; "IN_PROGRESS"; "FAILED"; "COMPENSATING"; "COMPENSATED"]
      /\ SagaContext.status context = "COMPENSATED"
      /\ length (SagaContext.executedSteps context) = k
      /\ actionsInvoked out = SagaStep.name <$> take (S k) (Saga.steps saga)
      /\ exists ss1,
           sameDefinitions (Saga.steps saga) ss1
           /\ SagaStep.executed <$> ss1 =
                replicate k true ++ (SagaStep.executed <$> drop k (Saga.steps saga))
           /\ drop (S k) ss1 = drop (S k) (Saga.steps saga)
           /\ view <$> Saga.steps saga' = view <$> ss1
           /\ (forall j : nat, j ∉ Saga.filterExecuted 0 ss1 ->
                 Saga.steps saga' !! j = ss1 !! j)
           /\ compensateCalls out =
                reverse (SagaStep.name <$> filter SagaStep.isExecuted ss1)
           /\ compensationsInvoked out =
                reverse (SagaStep.name <$> filter compensable ss1)
           /\ is_Some (SagaContext.error context)
  end.
Proof.
  unfold Saga.execute, firstFailing, SagaContext.new, SagaContext.generateSagaId.
  cbn [now random fst snd clock entropy ticks draws console].
  set (id := "saga_" +:+ _).
  set (context0 := SagaContext.markStarted _ _).
  set (env0 := log _ _).
  destruct (Saga.executeSteps (Saga.steps saga) context0 env0)
    as [[[ss1 c1] e1] r] eqn:Hfwd.
  destruct (executeSteps_frame _ _ _ _ _ _ _ Hfwd)
    as (Hdefs & (Hst & Hh & Herr & _) & outF & HpF & HcallsF).
  assert (Hp0 : printed env env0 [SagaStarting (Saga.name saga) id]) by done.
  destruct (firstFailure _ _ _ _) as [k|] eqn:Hff.
  - destruct (executeSteps_fails _ context0 env0 _ _ _ _ k Hff Hfwd)
      as ([e ->] & Hex & Hdrop & Hlen & outF' & HpF' & Hact).
    rewrite <- (printed_inj _ _ _ _ HpF HpF') in Hact. clear outF' HpF'.
    cbn [now fst snd].
    destruct (Saga.compensate _ _ _) as [[saga1 c2] e2] eqn:Hcomp.
    destruct (compensate_spec _ _ _ _ _ _ Hcomp)
      as (Hviews & Hkeep & _ & Hs2 & Hh2 & Herr2 & Hlog2 & outC & HpC & HcallsC & HinvC & HactC).
    intros [= <- <- <-].
    exists c2, ([SagaStarting (Saga.name saga) id] ++ outF
                ++ [SagaFailed (Saga.name saga) (message e)] ++ outC).
    split; [done|]. split.
    { eapply printed_trans; [exact Hp0|]. eapply printed_trans; [exact HpF|].
      eapply printed_trans; [|exact HpC]. done. }
    split. { rewrite Hh2. simpl. by rewrite Hh. }
    split; [done|]. split. { rewrite Hlog2. simpl. rewrite Hlen. done. }
    split. { rewrite !actionsInvoked_app, Hact, HactC. simpl. by rewrite app_nil_r. }
    exists ss1. split; [done|]. split; [done|]. split; [done|].
    split; [done|]. split; [done|].
    rewrite !compensateCalls_app, !compensationsInvoked_app, HcallsF, HcallsC, HinvC.
    split; [done|]. simpl.
    assert (compensationsInvoked outF = []) as ->.
    { clear -HcallsF. induction outF as [|ev outF IH]; [done|].
      destruct ev; try done; apply IH; done. }
    split; [done|]. rewrite Herr2. by eexists.
  - destruct (executeSteps_succeeds _ context0 env0 _ _ _ _ Hff Hfwd)
      as (-> & Hlen & _).
    cbn [now fst snd].
    destruct (getDuration_ended
      (SagaContext.markCompleted (clock e1 (ticks e1)) c1) _ eq_refl) as [dur Hd].
    rewrite Hd. intros [= <- <- <-].
    eexists _, ([SagaStarting (Saga.name saga) id] ++ outF
                ++ [SagaCompleted (Saga.name saga) dur]).
    split; [done|]. split.
    { eapply printed_trans; [exact Hp0|]. eapply printed_trans; [exact HpF|]. done. }
    split. { simpl. by rewrite Hh. }
    split; [done|]. split; [simpl; by rewrite Hlen|].
    split; [by rewrite !compensateCalls_app, HcallsF|].
    simpl. by rewrite Herr.
Qed.

Lemma no_calls_no_invocations out :
  compensateCalls out = [] -> compensationsInvoked out = [].
Proof.
  induction out as [|ev out IH]; [done|].
  destruct ev; try done; intros H; by apply IH.
Qed.

Lemma fresh_flags (ss : list SagaStep.t) :
  Forall (fun s => SagaStep.isExecuted s = false) ss ->
  SagaStep.executed <$> ss = replicate (length ss) false.
Proof.
  induction 1 as [|s ss Hs _ IH]; [done|].
  rewrite fmap_cons, IH. unfold SagaStep.isExecuted in Hs. by rewrite Hs.
Qed.

Lemma filter_compensable_prefix (ss : list SagaStep.t) : forall k m,
  SagaStep.executed <$> ss = replicate k true ++ replicate m false ->
  filter compensable ss = filter hasCompensation (take k ss).
Proof.
  induction ss as [|s ss IH]; intros k m.
  - by destruct k.
  - rewrite fmap_cons. destruct k as [|k]; simpl.
    + destruct m as [|m]; [done|]. simpl. intros [= Hs Hss].
      rewrite filter_cons_False
        by (apply Is_true_false; unfold compensable; by rewrite Hs).
      rewrite (IH 0%nat m Hss). by rewrite take_0.
    + intros [= Hs Hss]. unfold compensable in *.
      destruct (hasCompensation s) eqn:Hc.
      * rewrite (filter_cons_True (λ s, SagaStep.executed s && hasCompensation s))
          by (apply Is_true_true; by rewrite Hs, Hc).
        rewrite (filter_cons_True hasCompensation) by (by apply Is_true_true).
        by rewrite (IH k m Hss).
      * rewrite (filter_cons_False (λ s, SagaStep.executed s && hasCompensation s))
          by (apply Is_true_false; by rewrite Hs, Hc).
        rewrite (filter_cons_False hasCompensation) by (by apply Is_true_false).
        by rewrite (IH k m Hss).
Qed.

Lemma names_filter_hasCompensation (ss : list SagaStep.t) : forall ss',
  SagaStep.name <$> ss' = SagaStep.name <$> ss ->
  SagaStep.compensation <$> ss' = SagaStep.compensation <$> ss ->
  SagaStep.name <$> filter hasCompensation ss'
  = SagaStep.name <$> filter hasCompensation ss.
Proof.
  induction ss as [|s ss IH]; intros [|s' ss']; try done.
  rewrite !fmap_cons. intros [= Hn Hns] [= Hc Hcs].
  assert (Hh : hasCompensation s' = hasCompensation s)
    by (unfold hasCompensation; by rewrite Hc).
  destruct (hasCompensation s) eqn:Hs.
  - rewrite !filter_cons_True by (by apply Is_true_true).
    by rewrite !fmap_cons, Hn, (IH _ Hns Hcs).
  - rewrite !filter_cons_False by (by apply Is_true_false).
    by apply IH.
Qed.

(** ** C1 *)

(** C1, as stated, fails for a saga that is run again without [reset]:
    [sagaToggle] completes a first run, which leaves [executed = true] on
    both steps; in the second run step 1 is the first to fail, and yet the
    rollback compensates step 2 and step 1. *)
Lemma rerun_breaks_reverse_rollback :
  let '(saga1, env1, _) := Saga.execute Samples.sagaToggle ∅ Samples.env0 in
  ~ rollsBackInReverse saga1 {["go" := VBool true]} env1.
Proof.
  vm_compute. intros H. specialize (H 0%nat eq_refl).
  destruct H as [H _]. vm_compute in H. discriminate H.
Qed.

(** C1, amended.  In a run that starts with no step flagged executed (a
    saga freshly built, or [reset]), with step [k + 1] the first whose
    forward action fails: [step.compensate] is called on steps [k], ...,
    [1] in that order and their compensations are invoked in that order;
    the steps flagged executed are exactly the first [k], so the failing
    step is not compensated; the forward actions invoked are those of
    steps [1 .. k + 1]; the later steps are left untouched. *)
Theorem fresh_saga_rolls_back_in_reverse saga initialData env :
  Forall (fun s => SagaStep.isExecuted s = false) (Saga.steps saga) ->
  rollsBackInReverse saga initialData env.
Proof.
  intros Hfresh k Hff.
  destruct (Saga.execute saga initialData env) as [[saga' env'] c] eqn:Hex.
  apply execute_outcome in Hex as (context & out & -> & Hp & H).
  rewrite Hff in H.
  destruct H as (_ & _ & _ & Hact & ss1 & (Hn & Hc & _) & Hflags & Hdrop
                 & Hviews & Hkeep & Hcalls & Hinv & _).
  rewrite (printed_emitted _ _ _ Hp).
  rewrite (fresh_flags (drop k (Saga.steps saga))) in Hflags
    by (by apply Forall_drop).
  destruct (filterExecuted_prefix _ _ _ 0%nat Hflags) as [Hrefs Hsel].
  assert (Htake : SagaStep.name <$> take k ss1
                  = SagaStep.name <$> take k (Saga.steps saga))
    by (by rewrite !fmap_take, Hn).
  split; [by rewrite Hcalls, Hsel, Htake|]. split.
  { rewrite Hinv, (filter_compensable_prefix _ _ _ Hflags). f_equal.
    apply names_filter_hasCompensation; [done|]. by rewrite !fmap_take, Hc. }
  split.
  { rewrite <- Hrefs. apply filterExecuted_flags. by apply view_executed. }
  split; [done|].
  rewrite <- Hdrop. apply list_eq. intros j. rewrite !lookup_drop.
  apply Hkeep. rewrite Hrefs, elem_of_seq. lia.
Qed.

Lemma fresh_saga_rolls_back_in_reverse_witness :
  Forall (fun s => SagaStep.isExecuted s = false) (Saga.steps Samples.sagaFailC)
  /\ firstFailing Samples.sagaFailC ∅ Samples.env0 = Some 2%nat
  /\ rollsBackInReverse Samples.sagaFailC ∅ Samples.env0.
Proof.
  assert (Hfresh : Forall (fun s => SagaStep.isExecuted s = false)
                     (Saga.steps Samples.sagaFailC))
    by (repeat constructor).
  split; [exact Hfresh|]. split; [reflexivity|].
  exact (fresh_saga_rolls_back_in_reverse Samples.sagaFailC ∅ Samples.env0 Hfresh).
Defined.

(** ** C2 *)

(** C2.  When every forward action resolves (for any number of steps, none
    included), [Saga.execute] returns a Context whose status is COMPLETED
    and whose execution log has one entry per step, and during the run
    [step.compensate] is never called, so no compensation is invoked. *)
Theorem execute_all_succeed saga initialData env :
  firstFailing saga initialData env = None ->
  let '(_, env', c) := Saga.execute saga initialData env in
  exists context,
    c = Returned context
    /\ SagaContext.getStatus context = "COMPLETED"
    /\ length (SagaContext.getExecutedSteps context) = Saga.getStepCount saga
    /\ compensateCalls (emitted env env') = []
    /\ compensationsInvoked (emitted env env') = [].
Proof.
  intros Hff.
  destruct (Saga.execute saga initialData env) as [[saga' env'] c] eqn:Hex.
  apply execute_outcome in Hex as (context & out & -> & Hp & H).
  rewrite Hff in H. destruct H as (_ & Hs & Hlen & Hcalls & _).
  rewrite (printed_emitted _ _ _ Hp). exists context.
  repeat split; try done. by apply no_calls_no_invocations.
Qed.

Lemma execute_all_succeed_witness :
  firstFailing Samples.sagaABC ∅ Samples.env0 = None
  /\ let '(_, env', c) := Saga.execute Samples.sagaABC ∅ Samples.env0 in
     exists context,
       c = Returned context
       /\ SagaContext.getStatus context = "COMPLETED"
       /\ length (SagaContext.getExecutedSteps context)
          = Saga.getStepCount Samples.sagaABC
       /\ compensateCalls (emitted Samples.env0 env') = []
       /\ compensationsInvoked (emitted Samples.env0 env') = [].
Proof.
  split; [reflexivity|].
  apply (execute_all_succeed Samples.sagaABC ∅ Samples.env0). reflexivity.
Defined.

(** A saga without steps completes at once. *)
Example execute_no_steps name initialData env :
  firstFailing (Saga.new name) initialData env = None.
Proof. reflexivity. Qed.

(** ** C3 *)

Lemma filterExecuted_app (l1 l2 : list SagaStep.t) : forall i : nat,
  Saga.filterExecuted i (l1 ++ l2)
  = Saga.filterExecuted i l1 ++ Saga.filterExecuted (i + length l1) l2.
Proof.
  induction l1 as [|step l1 IH]; intros i; simpl.
  - by rewrite Nat.add_0_r.
  - rewrite IH, <- Nat.add_succ_comm. by destruct (SagaStep.isExecuted step).
Qed.

Lemma rollback_snoc pre step : forall context,
  rollback (pre ++ [step]) context
  = let '(step', attempt, context) := rollbackStep step context in
    let '(pre', later, context) := rollback pre context in
    (pre' ++ [step'], attempt ++ later, context).
Proof.
  induction pre as [|s pre IH]; intros context.
  - simpl. destruct (rollbackStep step context) as [[step' attempt] c1].
    by rewrite app_nil_r.
  - cbn [app rollback]. rewrite IH.
    destruct (rollbackStep step context) as [[step' attempt] c1].
    destruct (rollback pre c1) as [[pre' later] c2].
    destruct (rollbackStep s c2) as [[s' a] c3].
    by rewrite app_assoc.
Qed.

Lemma logAll_app out1 out2 env :
  logAll (out1 ++ out2) env = logAll out2 (logAll out1 env).
Proof. apply foldl_app. Qed.

Lemma printed_logAll out : forall env, printed env (logAll out env) out.
Proof.
  induction out as [|ev out IH]; intros env.
  - apply printed_refl.
  - eapply (printed_trans _ _ _ [ev] out); [apply printed_log|apply IH].
Qed.

(** One turn of the loop of [Saga.compensate], [catch] included, on an
    executed step. *)
Lemma compensate_rollbackStep step context env :
  SagaStep.executed step = true ->
  (let '(step', context', env', c) := SagaStep.compensate step context env in
   (step', context',
    match c with
    | Returned _ => env'
    | Thrown e => log (CompensationError (SagaStep.name step) (message e)) env'
    end))
  = let '(step', attempt, context') := rollbackStep step context in
    (step', context', logAll (attempt ≫= attemptLines) env).
Proof.
  intros Hex. unfold SagaStep.compensate, rollbackStep. rewrite Hex. simpl.
  destruct (SagaStep.compensation step) as [comp|]; [|done].
  by destruct (comp context).
Qed.

(** The loop of [Saga.compensate] over the references to the executed
    steps of [pre], from the last to the first, is the rollback of [pre]. *)
Lemma compensateLoop_rollback (pre : list SagaStep.t) :
  forall (later : list nat) (post : list SagaStep.t) context env,
    Saga.compensateLoop (length (Saga.filterExecuted 0 pre))
      (Saga.filterExecuted 0 pre ++ later) (pre ++ post) context env
    = let '(pre', attempts, context') := rollback pre context in
      (pre' ++ post, context', logAll (attempts ≫= attemptLines) env).
Proof.
  induction pre as [|step pre IH] using rev_ind; intros later post context env.
  - done.
  - rewrite filterExecuted_app, rollback_snoc. simpl.
    pose proof (compensate_rollbackStep step context env) as Hstep.
    unfold SagaStep.isExecuted.
    destruct (SagaStep.executed step) eqn:Hex.
    + specialize (Hstep eq_refl).
      rewrite length_app. simpl. rewrite Nat.add_1_r. cbn [Saga.compensateLoop].
      rewrite <- !app_assoc. cbn [app].
      rewrite list_lookup_middle by done. cbn [mbind option_bind].
      rewrite list_lookup_middle by done. cbn [fmap option_fmap option_map].
      destruct (SagaStep.compensate step context env) as [[[s1 c1] e1] r1].
      destruct (rollbackStep step context) as [[step' attempt] c2].
      injection Hstep as -> -> Henv. rewrite Henv.
      rewrite insert_app_r_alt by done. rewrite Nat.sub_diag. simpl.
      rewrite (IH ([length pre] ++ later) (step' :: post) c2).
      destruct (rollback pre c2) as [[pre' attempts] c3].
      by rewrite bind_app, logAll_app, <- app_assoc.
    + unfold rollbackStep. rewrite Hex. simpl.
      rewrite app_nil_r, <- app_assoc. simpl.
      rewrite (IH later (step :: post) context env).
      destruct (rollback pre context) as [[pre' attempts] c3].
      by rewrite <- app_assoc.
Qed.

Lemma compensate_rollback saga context env :
  let '(saga', context', env') := Saga.compensate saga context env in
  let '(steps', attempts, rolled) :=
    rollback (Saga.steps saga) (SagaContext.markCompensating context) in
  Saga.steps saga' = steps'
  /\ SagaContext.data context' = SagaContext.data rolled
  /\ exists d,
       emitted env env'
       = [CompensationStarting (Saga.name saga)] ++ (attempts ≫= attemptLines)
         ++ [CompensationFinished (Saga.name saga) d].
Proof.
  unfold Saga.compensate.
  pose proof (compensateLoop_rollback (Saga.steps saga) [] []
                (SagaContext.markCompensating context)
                (log (CompensationStarting (Saga.name saga)) env)) as Hloop.
  rewrite !app_nil_r in Hloop. rewrite Hloop. clear Hloop.
  destruct (rollback (Saga.steps saga) (SagaContext.markCompensating context))
    as [[steps' attempts] rolled].
  rewrite app_nil_r. cbn [now].
  set (e1 := logAll _ _).
  destruct (getDuration_ended
    (SagaContext.markCompensated (clock e1 (ticks e1)) rolled) _ eq_refl) as [d Hd].
  rewrite Hd. split; [done|]. split; [done|]. exists d.
  apply printed_emitted.
  eapply printed_trans; [apply printed_log|].
  eapply printed_trans; [apply printed_logAll|]. fold e1.
  unfold printed. by simpl.
Qed.

Lemma outcomes_lines attempts :
  outcomes (attempts ≫= attemptLines) = attempts
  /\ caught (attempts ≫= attemptLines) = omap thrown attempts.
Proof.
  unfold outcomes, caught.
  induction attempts as [|[n|n|n [msg]] attempts [IH1 IH2]]; [done|..];
    rewrite bind_cons, !omap_app, IH1, IH2; done.
Qed.

Lemma rollback_names steps : forall context,
  attemptName <$> (rollback steps context).1.2
  = reverse (SagaStep.name <$> filter SagaStep.isExecuted steps).
Proof.
  induction steps as [|step rest IH]; intros context; [done|].
  cbn [rollback]. specialize (IH context).
  destruct (rollback rest context) as [[rest' later] c1]. simpl in IH.
  unfold rollbackStep.
  destruct (SagaStep.executed step) eqn:Hex; simpl.
  - rewrite filter_cons_True by (by apply Is_true_true).
    rewrite fmap_cons, reverse_cons, <- IH.
    destruct (SagaStep.compensation step) as [comp|]; simpl;
      [destruct (comp c1)|]; simpl; by rewrite fmap_app.
  - rewrite filter_cons_False by (by apply Is_true_false).
    by rewrite app_nil_r.
Qed.

(** C3.  [Saga.compensate] is the rollback of the design: going from the
    last step to the first, it applies the compensation of every step
    flagged executed to the Context as the compensations after it have
    left it, whether those returned or threw (the functions are arbitrary,
    so each may throw).  A compensation that returns marks its step
    compensated, one that throws reaches the [catch] with its error, and
    in both cases what it wrote stays in the Context.  There is one attempt
    for every executed step, last first.  The Context is left COMPENSATED,
    and so is the Context of every run of [Saga.execute] in which a forward
    action failed. *)
Theorem compensate_attempts_all saga context env :
  (let '(saga', context', env') := Saga.compensate saga context env in
   let '(steps', attempts, rolled) :=
     rollback (Saga.steps saga) (SagaContext.markCompensating context) in
   Saga.steps saga' = steps'
   /\ SagaContext.data context' = SagaContext.data rolled
   /\ outcomes (emitted env env') = attempts
   /\ caught (emitted env env') = omap thrown attempts
   /\ attemptName <$> attempts
      = reverse (SagaStep.name <$> filter SagaStep.isExecuted (Saga.steps saga))
   /\ compensateCalls (emitted env env')
      = reverse (SagaStep.name <$> filter SagaStep.isExecuted (Saga.steps saga))
   /\ compensationsInvoked (emitted env env')
      = reverse (SagaStep.name <$> filter compensable (Saga.steps saga))
   /\ SagaContext.getStatus context' = "COMPENSATED")
  /\ forall initialData,
       match firstFailing saga initialData env with
       | Some _ =>
           SagaContext.getStatus
             <$> returnedContext (Saga.execute saga initialData env).2
           = Some "COMPENSATED"
       | None => True
       end.
Proof.
  split.
  - pose proof (compensate_rollback saga context env) as Hroll.
    pose proof (rollback_names (Saga.steps saga)
                  (SagaContext.markCompensating context)) as Hnames.
    destruct (Saga.compensate saga context env) as [[saga' context'] env'] eqn:H.
    destruct (rollback (Saga.steps saga) (SagaContext.markCompensating context))
      as [[steps' attempts] rolled].
    destruct Hroll as (Hsteps & Hdata & d & Hout).
    apply compensate_spec in H as (_ & _ & _ & Hs & _ & _ & _ & out & Hp & Hc & Hi & _).
    rewrite (printed_emitted _ _ _ Hp) in *. subst out.
    destruct (outcomes_lines attempts) as [Ho Hcaught].
    split; [done|]. split; [done|]. split.
    { unfold outcomes in *. rewrite !omap_app, Ho. simpl. by rewrite app_nil_r. }
    split.
    { unfold caught in *. rewrite !omap_app, Hcaught. simpl. by rewrite app_nil_r. }
    by repeat split.
  - intros initialData.
    destruct (Saga.execute saga initialData env) as [[saga' env'] c] eqn:Hex.
    apply execute_outcome in Hex as (context' & out & -> & _ & H).
    destruct (firstFailing saga initialData env); [|done].
    destruct H as (_ & Hs & _). simpl. unfold SagaContext.getStatus. by rewrite Hs.
Qed.

(** Scenario 6: the compensation of [B] throws and that of [A] still runs,
    takes back what [A] wrote and marks [A] compensated. *)
Example rollback_continues_after_failure :
  let '(saga', env', c) := Saga.execute Samples.sagaFailCompB ∅ Samples.env0 in
  emitted Samples.env0 env'
  = [SagaStarting "failCompB" "saga_1000_k3j9x0q1z";
     StepExecuting "A"; StepCompleted "A";
     StepExecuting "B"; StepCompleted "B";
     StepExecuting "C"; StepFailed "C" "insufficient stock";
     SagaFailed "failCompB" "insufficient stock";
     CompensationStarting "failCompB";
     StepCompensating "B"; CompensationFailed "B" "refund failed";
     CompensationError "B" "refund failed";
     StepCompensating "A"; CompensationCompleted "A";
     CompensationFinished "failCompB" 4]
  /\ outcomes (emitted Samples.env0 env')
     = [CompensationThrew "B" (mkError "refund failed"); Compensated "A"]
  /\ (SagaStep.isCompensated <$> Saga.steps saga') = [true; false; false]
  /\ (SagaContext.get "a" <$> returnedContext c)
     = Some (SagaContext.Stored (VBool false))
  /\ (SagaContext.get "b" <$> returnedContext c)
     = Some (SagaContext.Stored (VBool true))
  /\ (SagaContext.getStatus <$> returnedContext c) = Some "COMPENSATED".
Proof. by vm_compute. Qed.

(** ** C4 *)

Lemma elem_of_filterExecuted (ss : list SagaStep.t) : forall n i : nat,
  i ∈ Saga.filterExecuted n ss <->
  exists j : nat, i = (n + j)%nat /\ SagaStep.isExecuted <$> ss !! j = Some true.
Proof.
  induction ss as [|s ss IH]; intros n i; simpl.
  - split; [by intros ?%elem_of_nil|]. by intros (j & _ & ?).
  - destruct (SagaStep.isExecuted s) eqn:Hs.
    + rewrite elem_of_cons, IH. split.
      * intros [->|(j & -> & Hj)].
        -- exists 0%nat. simpl. rewrite Hs. split; [lia|done].
        -- exists (S j). split; [lia|done].
      * intros ([|j] & -> & Hj).
        -- left. lia.
        -- right. exists j. split; [lia|done].
    + rewrite IH. split.
      * intros (j & -> & Hj). exists (S j). split; [lia|done].
      * intros ([|j] & -> & Hj).
        -- simpl in Hj. rewrite Hs in Hj. done.
        -- exists j. split; [lia|done].
Qed.

(** C4, as stated, fails for a step that is run again without [reset]:
    the first run of [sagaToggle] completes and leaves [executed = true] on
    its steps; in a second run the action of step [A] rejects, and
    [step.execute], which does not write the flag on that path, leaves it
    true. *)
Lemma rerun_failure_keeps_executed_flag :
  let '(saga1, env1, _) := Saga.execute Samples.sagaToggle ∅ Samples.env0 in
  let context := (SagaContext.new {["go" := VBool true]} env1).1 in
  ~ Forall (fun step => failureLeavesUnexecuted step context env1)
           (Saga.steps saga1).
Proof.
  vm_compute. intros H. apply Forall_cons in H as [(_ & H & _) _].
  discriminate H.
Qed.

(** C4, amended.  When the forward action fails, [step.execute] stores the
    error on the step, leaves the executed flag as it was (so false on a
    step that is new or [reset], which is the design's statement), appends
    nothing to the Context's execution log and throws the same error; when
    the action succeeds the flag becomes true.  The rollback selects the
    steps it calls [step.compensate] on by that flag and nothing else. *)
Theorem execute_failure_leaves_step_unexecuted step context env :
  (let '(step', context', _, c) := SagaStep.execute step context env in
   match SagaStep.action step context with
   | SagaStep.Rejected _ e =>
       SagaStep.getError step' = Some e
       /\ SagaStep.isExecuted step' = SagaStep.isExecuted step
       /\ SagaContext.getExecutedSteps context' = SagaContext.getExecutedSteps context
       /\ c = Thrown e
   | SagaStep.Resolved _ v =>
       SagaStep.isExecuted step' = true
       /\ length (SagaContext.getExecutedSteps context')
          = S (length (SagaContext.getExecutedSteps context))
       /\ c = Returned v
   end)
  /\ (SagaStep.isExecuted step = false -> failureLeavesUnexecuted step context env)
  /\ forall (ss : list SagaStep.t) (i : nat),
       i ∈ Saga.filterExecuted 0 ss <-> SagaStep.isExecuted <$> ss !! i = Some true.
Proof.
  assert (Hexec :
    let '(step', context', _, c) := SagaStep.execute step context env in
    match SagaStep.action step context with
    | SagaStep.Rejected _ e =>
        SagaStep.getError step' = Some e
        /\ SagaStep.isExecuted step' = SagaStep.isExecuted step
        /\ SagaContext.getExecutedSteps context' = SagaContext.getExecutedSteps context
        /\ c = Thrown e
    | SagaStep.Resolved _ v =>
        SagaStep.isExecuted step' = true
        /\ length (SagaContext.getExecutedSteps context')
           = S (length (SagaContext.getExecutedSteps context))
        /\ c = Returned v
    end).
  { destruct (SagaStep.action step context) as [d v|d e] eqn:Ha.
    + rewrite (execute_resolved _ _ _ _ _ Ha). split; [done|]. split; [|done].
      unfold SagaContext.getExecutedSteps. destruct v; simpl;
        rewrite length_app; simpl; lia.
    + by rewrite (execute_rejected _ _ _ _ _ Ha). }
  split; [exact Hexec|]. split.
  - intros Hfresh. unfold failureLeavesUnexecuted.
    destruct (SagaStep.execute step context env) as [[[step' context'] env'] c].
    destruct (SagaStep.action step context) as [d v|d e]; [done|].
    by rewrite <- Hfresh.
  - intros ss i. rewrite elem_of_filterExecuted. split.
    + by intros (j & -> & Hj).
    + intros Hi. by exists i.
Qed.

Lemma execute_failure_leaves_step_unexecuted_witness :
  SagaStep.isExecuted Samples.failingC = false
  /\ failureLeavesUnexecuted Samples.failingC Samples.context0 Samples.env0.
Proof.
  assert (H : SagaStep.isExecuted Samples.failingC = false) by reflexivity.
  split; [exact H|].
  exact (proj1 (proj2 (execute_failure_leaves_step_unexecuted
                         Samples.failingC Samples.context0 Samples.env0)) H).
Defined.

(** A step that has not run and whose action rejects. *)
Example execute_failingC :
  let '(step', context', _, c) :=
    SagaStep.execute Samples.failingC Samples.context0 Samples.env0 in
  SagaStep.getError step' = Some (mkError "insufficient stock")
  /\ SagaStep.isExecuted step' = false
  /\ SagaContext.getExecutedSteps context' = []
  /\ c = Thrown (mkError "insufficient stock").
Proof. by repeat split. Qed.

(** ** C5 *)

(** What [step.compensate] does with the outcome of a compensation it
    invokes: the flag on success, and on failure nothing but the throw. *)
Lemma compensate_invoked step context env comp :
  SagaStep.executed step = true ->
  SagaStep.compensation step = Some comp ->
  let '(step', _, _, c) := SagaStep.compensate step context env in
  match comp context with
  | SagaStep.Resolved _ v => SagaStep.isCompensated step' = true /\ c = Returned v
  | SagaStep.Rejected _ e => step' = step /\ c = Thrown e
  end.
Proof.
  intros Hex Hcomp. unfold SagaStep.compensate. rewrite Hex, Hcomp. simpl.
  by destruct (comp context).
Qed.

(** C5, where the code departs from it.  The compensation of the executed
    step [B] rejects with "refund failed": [step.compensate] throws that
    error on, and the step's captured error is still unset. *)
Theorem compensate_failure_is_not_captured :
  let '(step', _, _, c) :=
    SagaStep.compensate Samples.executedB Samples.context0 Samples.env0 in
  c = Thrown (mkError "refund failed")
  /\ SagaStep.getError step' = None
  /\ SagaStep.isCompensated step' = false.
Proof. by repeat split. Qed.

(** ** C6 *)

(** C6.  For a name that is not registered, [executeSaga] throws "Saga not
    found" and nothing else happens: the orchestrator, its history
    included, is unchanged, no Context is created (no clock reading, no id
    drawn) and nothing is printed.  For a registered name it returns the
    Context of the run, never throws: COMPLETED without an error when every
    action resolved, COMPENSATED with the error of the failing action
    otherwise. *)
Theorem executeSaga_throws_only_not_found name initialData o env :
  match SagaOrchestrator.sagas o !! name with
  | None =>
      SagaOrchestrator.executeSaga name initialData o env
      = (o, env, Thrown (mkError ("Saga not found: " +:+ name)))
  | Some saga =>
      let env1 := (now (log (OrchestratorExecuting name) env)).2 in
      exists o' env' context,
        SagaOrchestrator.executeSaga name initialData o env
        = (o', env', Returned context)
        /\ (Saga.execute saga initialData env1).2 = Returned context
        /\ match firstFailing saga initialData env1 with
           | None =>
               SagaContext.getStatus context = "COMPLETED"
               /\ SagaContext.getError context = None
           | Some _ =>
               SagaContext.getStatus context = "COMPENSATED"
               /\ is_Some (SagaContext.getError context)
           end
  end.
Proof.
  unfold SagaOrchestrator.executeSaga.
  destruct (SagaOrchestrator.sagas o !! name) as [saga|]; [|done].
  cbn [now fst snd].
  destruct (Saga.execute saga initialData _) as [[saga' env'] c] eqn:Hex.
  pose proof Hex as Hout.
  apply execute_outcome in Hout as (context & out & -> & _ & H).
  destruct (SagaOrchestrator.recordExecution _ _ _ _ _) as [o' env''] eqn:Hrec.
  exists o', env'', context. split; [done|]. split; [done|].
  unfold SagaContext.getStatus, SagaContext.getError.
  destruct (firstFailing saga initialData _).
  - by destruct H as (_ & Hs & _ & _ & ss1 & _ & _ & _ & _ & _ & _ & _ & He).
  - by destruct H as (_ & Hs & _ & _ & He).
Qed.

(** The run of scenario 2 through the orchestrator, and an unknown name. *)
Example executeSaga_order :
  let '(o', _, c) :=
    SagaOrchestrator.executeSaga "order" ∅ Samples.orchestrator Samples.env0 in
  (SagaContext.getStatus <$> returnedContext c) = Some "COMPENSATED"
  /\ (SagaOrchestrator.status <$> SagaOrchestrator.executionHistory o')
     = ["COMPENSATED"].
Proof. by vm_compute. Qed.

Example executeSaga_unknown :
  let '(o', env', c) :=
    SagaOrchestrator.executeSaga "Unknown" ∅ Samples.orchestrator Samples.env0 in
  c = Thrown (mkError "Saga not found: Unknown")
  /\ SagaOrchestrator.executionHistory o' = []
  /\ ticks env' = ticks Samples.env0.
Proof. by vm_compute. Qed.

(** ** C7 *)

(** C7, as stated, fails: [setStatus] writes whatever it is given, so a
    Context that has reached COMPLETED can be put back to PENDING. *)
Lemma setStatus_leaves_state_machine :
  ~ statusesFollowMachine
      [SagaContext.OpMarkStarted 1; SagaContext.OpMarkCompleted 2;
       SagaContext.OpSetStatus "PENDING"].
Proof.
  intros H. specialize (H ∅ Samples.env0). vm_compute in H. discriminate H.
Qed.

(** C7, amended.  The Context does not enforce the state machine, the
    sequencer follows it: the Context that [Saga.execute] returns has held
    exactly PENDING, IN_PROGRESS, COMPLETED or exactly PENDING, IN_PROGRESS,
    FAILED, COMPENSATING, COMPENSATED, in that order, which is a path of
    the machine ending in a terminal status. *)
Theorem execute_follows_state_machine saga initialData env :
  let '(_, _, c) := Saga.execute saga initialData env in
  exists context,
    c = Returned context
    /\ (SagaContext.statusHistory context
          = ["PENDING"; "IN_PROGRESS"; "COMPLETED"]
        \/ SagaContext.statusHistory context
          = ["PENDING"; "IN_PROGRESS"; "FAILED"; "COMPENSATING"; "COMPENSATED"])
    /\ SagaContext.followsMachine (SagaContext.statusHistory context) = true
    /\ last (SagaContext.statusHistory context) = Some (SagaContext.getStatus context)
    /\ SagaContext.terminal (SagaContext.getStatus context) = true.
Proof.
  destruct (Saga.execute saga initialData env) as [[saga' env'] c] eqn:Hex.
  apply execute_outcome in Hex as (context & out & -> & _ & H).
  exists context. split; [done|].
  destruct (firstFailing saga initialData env) as [k|].
  - destruct H as (Hh & Hs & _). unfold SagaContext.getStatus.
    rewrite Hh, Hs. split; [by right|]. by repeat split.
  - destruct H as (Hh & Hs & _). unfold SagaContext.getStatus.
    rewrite Hh, Hs. split; [by left|]. by repeat split.
Qed.

(** ** C8 *)

Lemma slice_length {A : Type} (start : Z) (l : list A) :
  (length (SagaOrchestrator.slice start l) <= length l)%nat.
Proof. unfold SagaOrchestrator.slice. rewrite length_drop. lia. Qed.

Lemma slice_last {A : Type} (n : nat) (l : list A) :
  (0 < n <= length l)%nat ->
  SagaOrchestrator.slice (- Z.of_nat n) l = drop (length l - n) l.
Proof.
  intros Hn. unfold SagaOrchestrator.slice.
  destruct (Z.ltb_spec (- Z.of_nat n) 0) as [_|?]; [|lia].
  f_equal. lia.
Qed.

Lemma entries_cons run runs env :
  entries (run :: runs) env
  = entryOf run (clock env (ticks env)) :: entries runs (now env).2.
Proof.
  unfold entries. simpl. rewrite Nat.add_0_r. f_equal.
  apply imap_ext. intros i r _. simpl. do 2 f_equal. lia.
Qed.

Lemma entries_length runs env : length (entries runs env) = length runs.
Proof. unfold entries. apply length_imap. Qed.

(** One recording: push, then drop the oldest entry if the bound is passed. *)
Lemma recordExecution_history name context d o env :
  (length (SagaOrchestrator.executionHistory o)
     <= SagaOrchestrator.maxHistorySize o)%nat ->
  let h := SagaOrchestrator.executionHistory o
           ++ [entryOf (name, context, d) (clock env (ticks env))] in
  SagaOrchestrator.recordExecution name context d o env
  = (SagaOrchestrator.mk (SagaOrchestrator.sagas o)
       (drop (length h - SagaOrchestrator.maxHistorySize o) h)
       (SagaOrchestrator.maxHistorySize o),
     (now env).2).
Proof.
  intros Hlen h. unfold SagaOrchestrator.recordExecution. cbn [now fst snd].
  change (SagaOrchestrator.executionHistory o ++ [_]) with h.
  f_equal. f_equal.
  assert (Hh : length h = S (length (SagaOrchestrator.executionHistory o)))
    by (unfold h; rewrite length_app; simpl; lia).
  destruct (decide _) as [Hgt|Hle].
  - replace (length h - SagaOrchestrator.maxHistorySize o)%nat with 1%nat by lia.
    by destruct h.
  - replace (length h - SagaOrchestrator.maxHistorySize o)%nat with 0%nat by lia.
    done.
Qed.

Lemma recordAll_cons name context d runs o env :
  recordAll ((name, context, d) :: runs) o env
  = recordAll runs (SagaOrchestrator.recordExecution name context d o env).1
      (SagaOrchestrator.recordExecution name context d o env).2.
Proof.
  unfold recordAll. cbn [foldl]. by rewrite <- surjective_pairing.
Qed.

Lemma recordAll_history runs : forall o env,
  (length (SagaOrchestrator.executionHistory o)
     <= SagaOrchestrator.maxHistorySize o)%nat ->
  let all := SagaOrchestrator.executionHistory o ++ entries runs env in
  SagaOrchestrator.executionHistory (recordAll runs o env).1
  = drop (length all - SagaOrchestrator.maxHistorySize o) all.
Proof.
  induction runs as [|[[name context] d] runs IH]; intros o env Hlen all.
  - unfold all. simpl. rewrite app_nil_r.
    by replace (_ - _)%nat with 0%nat by lia.
  - rewrite recordAll_cons, (recordExecution_history _ _ _ _ _ Hlen).
    cbn [fst snd].
    set (h := SagaOrchestrator.executionHistory o ++ _).
    set (cap := SagaOrchestrator.maxHistorySize o).
    assert (Hh : length h = S (length (SagaOrchestrator.executionHistory o)))
      by (unfold h; rewrite length_app; simpl; lia).
    rewrite IH by (simpl; rewrite length_drop; fold cap; lia).
    simpl. fold cap. unfold all. rewrite entries_cons, cons_middle, app_assoc.
    fold h. set (rest := entries runs (now env).2).
    rewrite <- (drop_app_le h rest) by lia.
    rewrite drop_drop. f_equal.
    rewrite length_drop, !length_app. unfold cap. lia.
Qed.

(** C8.  The history keeps the last 100 entries recorded, oldest first
    (the oldest is the one evicted).  Once more than [n] executions are
    recorded, for [n] from 1 up to the capacity 100,
    [getExecutionHistory(n)] is the [n] most recent entries in insertion
    order; and no [limit] makes [getExecutionHistory] return more entries
    than are stored. *)
Theorem history_is_bounded_fifo runs env (n : nat) :
  (0 < n <= 100)%nat ->
  (n < length runs)%nat ->
  let o := (recordAll runs SagaOrchestrator.new env).1 in
  SagaOrchestrator.executionHistory o = drop (length runs - 100) (entries runs env)
  /\ length (SagaOrchestrator.getExecutionHistory (Z.of_nat n) o) = n
  /\ SagaOrchestrator.getExecutionHistory (Z.of_nat n) o
     = drop (length runs - n) (entries runs env)
  /\ forall limit : Z,
       (length (SagaOrchestrator.getExecutionHistory limit o)
          <= length (SagaOrchestrator.executionHistory o))%nat.
Proof.
  intros Hn Hruns o.
  assert (Hh : SagaOrchestrator.executionHistory o
               = drop (length runs - 100) (entries runs env)).
  { unfold o. rewrite recordAll_history by (simpl; lia).
    simpl. by rewrite entries_length. }
  assert (Hlen : length (SagaOrchestrator.executionHistory o)
                 = (length runs - (length runs - 100))%nat)
    by (by rewrite Hh, length_drop, entries_length).
  assert (Hget : SagaOrchestrator.getExecutionHistory (Z.of_nat n) o
                 = drop (length runs - n) (entries runs env)).
  { unfold SagaOrchestrator.getExecutionHistory.
    rewrite slice_last by lia. rewrite Hlen, Hh, drop_drop. f_equal. lia. }
  split; [done|]. split.
  { rewrite Hget, length_drop, entries_length. lia. }
  split; [done|].
  intros limit. apply slice_length.
Qed.

Lemma history_is_bounded_fifo_witness :
  (0 < 100 <= 100)%nat
  /\ (100 < length Samples.runs101)%nat
  /\ let o := (recordAll Samples.runs101 SagaOrchestrator.new Samples.env0).1 in
     SagaOrchestrator.executionHistory o
       = drop (length Samples.runs101 - 100) (entries Samples.runs101 Samples.env0)
     /\ length (SagaOrchestrator.getExecutionHistory (Z.of_nat 100) o) = 100%nat
     /\ SagaOrchestrator.getExecutionHistory (Z.of_nat 100) o
        = drop (length Samples.runs101 - 100)
            (entries Samples.runs101 Samples.env0)
     /\ forall limit : Z,
          (length (SagaOrchestrator.getExecutionHistory limit o)
             <= length (SagaOrchestrator.executionHistory o))%nat.
Proof.
  assert (H1 : (0 < 100 <= 100)%nat) by lia.
  assert (H2 : (100 < length Samples.runs101)%nat) by (vm_compute; lia).
  split; [exact H1|]. split; [exact H2|].
  exact (history_is_bounded_fifo Samples.runs101 Samples.env0 100 H1 H2).
Defined.

(** Scenario 5 at the real capacity: the first of 101 entries is gone. *)
Example history_evicts_oldest :
  let o := (recordAll Samples.runs101 SagaOrchestrator.new Samples.env0).1 in
  (SagaOrchestrator.timestamp <$> head (SagaOrchestrator.executionHistory o))
    = Some 1001
  /\ (SagaOrchestrator.timestamp <$> last (SagaOrchestrator.executionHistory o))
    = Some 1100
  /\ length (SagaOrchestrator.executionHistory o) = 100%nat.
Proof. by vm_compute. Qed.

(** ** C9 *)

Lemma inherits_false key :
  ObjectPrototype.inherits key = false ->
  String.eqb key "__proto__" = false /\ ObjectPrototype.isMethod key = false.
Proof. unfold ObjectPrototype.inherits. apply orb_false_iff. Qed.

Lemma sumValues_increment key (counts : gmap string SagaOrchestrator.Cell) :
  ObjectPrototype.inherits key = false ->
  numeric counts ->
  SagaOrchestrator.sumValues (SagaOrchestrator.increment key counts)
  = S (SagaOrchestrator.sumValues counts).
Proof.
  intros [Hproto Hmethod]%inherits_false Hnum.
  unfold SagaOrchestrator.sumValues, SagaOrchestrator.increment.
  set (f := fun (_ : string) (cell : SagaOrchestrator.Cell) (acc : nat) =>
              match cell with
              | SagaOrchestrator.Count n => (n + acc)%nat
              | SagaOrchestrator.Text _ => acc
              end).
  assert (Hcomm : forall (j1 j2 : string) z1 z2 (y : nat),
    f j1 z1 (f j2 z2 y) = f j2 z2 (f j1 z1 y))
    by (intros ? ? [?|?] [?|?] ?; unfold f; lia).
  destruct (counts !! key) as [[n|s]|] eqn:Hk.
  - rewrite <- (insert_delete_eq counts).
    rewrite map_fold_insert_L; [|by intros; apply Hcomm|apply lookup_delete_eq].
    rewrite <- (insert_delete_id counts key _ Hk) at 2.
    rewrite map_fold_insert_L; [|by intros; apply Hcomm|apply lookup_delete_eq].
    unfold f. lia.
  - by destruct (Hnum key s).
  - rewrite Hproto, Hmethod.
    rewrite map_fold_insert_L; [|by intros; apply Hcomm|done]. done.
Qed.

Lemma numeric_increment key (counts : gmap string SagaOrchestrator.Cell) :
  ObjectPrototype.inherits key = false ->
  numeric counts ->
  numeric (SagaOrchestrator.increment key counts).
Proof.
  intros [Hproto Hmethod]%inherits_false Hnum k s.
  unfold SagaOrchestrator.increment.
  destruct (counts !! key) as [[n|s']|] eqn:Hk.
  - destruct (decide (k = key)) as [->|Hne].
    + by rewrite lookup_insert_eq.
    + rewrite lookup_insert_ne by done. apply Hnum.
  - by destruct (Hnum key s').
  - rewrite Hproto, Hmethod.
    destruct (decide (k = key)) as [->|Hne].
    + by rewrite lookup_insert_eq.
    + rewrite lookup_insert_ne by done. apply Hnum.
Qed.

Lemma statistics_fold (history : list SagaOrchestrator.ExecutionRecord) :
  Forall (fun record =>
            ObjectPrototype.inherits (SagaOrchestrator.status record) = false)
         history ->
  forall st sg total,
    numeric st ->
    let '(st', _, _) :=
      foldl (fun '(st, sg, total) record =>
               (SagaOrchestrator.increment (SagaOrchestrator.status record) st,
                SagaOrchestrator.increment (SagaOrchestrator.sagaName record) sg,
                total + SagaOrchestrator.duration record))
            (st, sg, total) history in
    numeric st'
    /\ SagaOrchestrator.sumValues st'
       = (SagaOrchestrator.sumValues st + length history)%nat.
Proof.
  induction 1 as [|record history Hrecord _ IH]; intros st sg total Hnum; simpl.
  - split; [done|lia].
  - specialize (IH (SagaOrchestrator.increment (SagaOrchestrator.status record) st)
                   (SagaOrchestrator.increment (SagaOrchestrator.sagaName record) sg)
                   (total + SagaOrchestrator.duration record)
                   (numeric_increment _ _ Hrecord Hnum)).
    destruct (foldl _ _ history) as [[st' sg'] total'].
    destruct IH as [Hnum' IH]. split; [done|].
    rewrite IH, sumValues_increment by done. lia.
Qed.

(** C9.  [totalExecutions] of [getStatistics] is the length of the retained
    history, and [byStatus] holds counts that add up to it, whenever no
    retained entry has for status a property name of [Object.prototype]
    (on which the object literal [byStatus] would find something that is
    not a count); none of the status names PENDING, IN_PROGRESS, COMPLETED,
    FAILED, COMPENSATING and COMPENSATED is one. *)
Theorem statistics_counts_sum_to_total o :
  Forall (fun record =>
            ObjectPrototype.inherits (SagaOrchestrator.status record) = false)
         (SagaOrchestrator.executionHistory o) ->
  SagaOrchestrator.sumValues (SagaOrchestrator.byStatus (SagaOrchestrator.getStatistics o))
  = SagaOrchestrator.totalExecutions (SagaOrchestrator.getStatistics o)
  /\ SagaOrchestrator.totalExecutions (SagaOrchestrator.getStatistics o)
     = length (SagaOrchestrator.executionHistory o)
  /\ numeric (SagaOrchestrator.byStatus (SagaOrchestrator.getStatistics o)).
Proof.
  intros Hstatus. unfold SagaOrchestrator.getStatistics.
  assert (Hempty : numeric ∅) by (intros k s; by rewrite lookup_empty).
  pose proof (statistics_fold (SagaOrchestrator.executionHistory o) Hstatus
                ∅ ∅ 0 Hempty) as H.
  destruct (foldl _ _ (SagaOrchestrator.executionHistory o)) as [[st sg] total].
  destruct H as [Hnum H]. simpl. split; [|done]. by rewrite H.
Qed.

Lemma statistics_counts_sum_to_total_witness :
  Forall (fun record =>
            ObjectPrototype.inherits (SagaOrchestrator.status record) = false)
         (SagaOrchestrator.executionHistory MoreSamples.threeRuns)
  /\ SagaOrchestrator.sumValues
       (SagaOrchestrator.byStatus
          (SagaOrchestrator.getStatistics MoreSamples.threeRuns)) = 3%nat.
Proof.
  assert (H : Forall (fun record =>
      ObjectPrototype.inherits (SagaOrchestrator.status record) = false)
      (SagaOrchestrator.executionHistory MoreSamples.threeRuns))
    by (vm_compute; repeat (constructor; [reflexivity|]); constructor).
  split; [exact H|].
  exact (eq_trans (proj1 (statistics_counts_sum_to_total MoreSamples.threeRuns H))
                  eq_refl).
Defined.

(** The statuses of the Context are counted: none is a property name of
    [Object.prototype]. *)
Example statuses_are_counted :
  Forall (fun status => ObjectPrototype.inherits status = false)
    ["PENDING"; "IN_PROGRESS"; "COMPLETED"; "FAILED"; "COMPENSATING";
     "COMPENSATED"].
Proof. repeat (constructor; [reflexivity|]). constructor. Qed.

(** An entry whose status is [__proto__] is in no count, and one whose
    status is [toString] leaves a string where its count would be. *)
Example statistics_of_inherited_status :
  let record status :=
    SagaOrchestrator.mkRecord "order" "saga_1" status 5 0 None 1 in
  let o status :=
    SagaOrchestrator.mk ∅ [record status] 100 in
  map_to_list (SagaOrchestrator.byStatus (SagaOrchestrator.getStatistics (o "__proto__")))
    = []
  /\ SagaOrchestrator.totalExecutions (SagaOrchestrator.getStatistics (o "__proto__"))
     = 1%nat
  /\ map_to_list (SagaOrchestrator.byStatus (SagaOrchestrator.getStatistics (o "toString")))
     = [("toString", SagaOrchestrator.Text "function toString() { [native code] }1")]
  /\ map_to_list (SagaOrchestrator.byStatus (SagaOrchestrator.getStatistics (o "DONE")))
     = [("DONE", SagaOrchestrator.Count 1)].
Proof. by vm_compute. Qed.

(** ** C10 *)

Lemma slice_0 {A : Type} (l : list A) : SagaOrchestrator.slice 0 l = l.
Proof.
  unfold SagaOrchestrator.slice. simpl.
  by rewrite Z.min_l by lia.
Qed.

(** C10.  [getExecutionHistory(0)] returns the whole retained history, in
    insertion order: the slice starts at [-0], which is index 0. *)
Theorem getExecutionHistory_zero_returns_all o :
  SagaOrchestrator.getExecutionHistory 0 o = SagaOrchestrator.executionHistory o.
Proof. unfold SagaOrchestrator.getExecutionHistory. apply slice_0. Qed.

(** * Further properties *)

(** ** What a run does to the steps, for any relation the step methods keep *)

Section StepRelation.

Variable R : SagaStep.t -> SagaStep.t -> Prop.
Hypothesis R_refl : forall s, R s s.
Hypothesis R_trans : forall s1 s2 s3, R s1 s2 -> R s2 s3 -> R s1 s3.
Hypothesis R_execute : forall s c e, R s (SagaStep.execute s c e).1.1.1.
Hypothesis R_compensate : forall s c e, R s (SagaStep.compensate s c e).1.1.1.

Lemma Forall2_R_refl (ss : list SagaStep.t) : Forall2 R ss ss.
Proof. induction ss; by constructor. Qed.

Lemma Forall2_R_trans (ss1 ss2 ss3 : list SagaStep.t) :
  Forall2 R ss1 ss2 -> Forall2 R ss2 ss3 -> Forall2 R ss1 ss3.
Proof.
  intros H12. revert ss3. induction H12 as [|a b l1 l2 Hab _ IH]; intros ss3 H23.
  - by inversion H23.
  - inversion H23 as [|? c ? l3 Hbc Hrest]; subst. constructor; [by eapply R_trans|].
    by apply IH.
Qed.

Lemma executeSteps_related todo : forall context env,
  Forall2 R todo (Saga.executeSteps todo context env).1.1.1.
Proof.
  induction todo as [|step rest IH]; intros context env; simpl; [constructor|].
  pose proof (R_execute step context env) as Hstep.
  destruct (SagaStep.execute step context env) as [[[step' c1] e1] [v|e]].
  - specialize (IH c1 e1).
    destruct (Saga.executeSteps rest c1 e1) as [[[rest' c2] e2] r].
    simpl in *. by constructor.
  - simpl in *. constructor; [done|apply Forall2_R_refl].
Qed.

Lemma insert_related (ss : list SagaStep.t) (r : nat) step step' :
  ss !! r = Some step -> R step step' -> Forall2 R ss (<[r := step']> ss).
Proof.
  revert r. induction ss as [|s ss IH]; intros [|r]; simpl; try done.
  - intros [= ->] H. constructor; [done|apply Forall2_R_refl].
  - intros Hr H. constructor; [apply R_refl|by apply IH].
Qed.

Lemma compensateLoop_related n : forall refs ss context env,
  Forall2 R ss (Saga.compensateLoop n refs ss context env).1.1.
Proof.
  induction n as [|i IH]; intros refs ss context env; simpl.
  - apply Forall2_R_refl.
  - destruct (refs !! i) as [r|]; simpl; [|apply IH].
    destruct (ss !! r) as [step|] eqn:Hstep; simpl; [|apply IH].
    pose proof (R_compensate step context env) as Hstep'.
    destruct (SagaStep.compensate step context env) as [[[step' c1] e1] r1].
    simpl in Hstep'.
    eapply Forall2_R_trans; [by eapply insert_related|apply IH].
Qed.

Lemma compensate_related saga context env :
  Forall2 R (Saga.steps saga)
    (Saga.steps (Saga.compensate saga context env).1.1)
  /\ Saga.name (Saga.compensate saga context env).1.1 = Saga.name saga.
Proof.
  unfold Saga.compensate.
  pose proof (compensateLoop_related
    (length (Saga.filterExecuted 0 (Saga.steps saga)))
    (Saga.filterExecuted 0 (Saga.steps saga)) (Saga.steps saga)
    (SagaContext.markCompensating context)
    (log (CompensationStarting (Saga.name saga)) env)) as H.
  destruct (Saga.compensateLoop _ _ _ _ _) as [[ss c1] e1].
  cbn [now fst snd] in *.
  by destruct (SagaContext.getDuration _ _).
Qed.

Lemma execute_related saga initialData env :
  Forall2 R (Saga.steps saga)
    (Saga.steps (Saga.execute saga initialData env).1.1)
  /\ Saga.name (Saga.execute saga initialData env).1.1 = Saga.name saga.
Proof.
  unfold Saga.execute, SagaContext.new, SagaContext.generateSagaId.
  cbn [now random fst snd].
  set (context0 := SagaContext.markStarted _ _). set (env0 := log _ _).
  pose proof (executeSteps_related (Saga.steps saga) context0 env0) as Hfwd.
  destruct (Saga.executeSteps (Saga.steps saga) context0 env0)
    as [[[ss c1] e1] [v|e]].
  - cbn [now fst snd] in *. by destruct (SagaContext.getDuration _ _).
  - cbn [now fst snd] in *.
    pose proof (compensate_related (Saga.mk (Saga.name saga) ss)
      (SagaContext.markFailed e (clock e1 (ticks e1)) c1)
      (now (log (SagaFailed (Saga.name saga) (message e)) e1)).2) as [Hc Hn].
    cbn [now fst snd] in *.
    destruct (Saga.compensate _ _ _) as [[saga' c2] e2]. simpl in *.
    split; [by eapply Forall2_R_trans|done].
Qed.

End StepRelation.

Lemma Forall2_fmap_eq {B : Type} (f : SagaStep.t -> B) (ss ss' : list SagaStep.t) :
  Forall2 (fun a b => f b = f a) ss ss' -> f <$> ss' = f <$> ss.
Proof. induction 1 as [|a b l l' H _ IH]; [done|]. by rewrite !fmap_cons, H, IH. Qed.

Lemma Forall2_Forall (P : SagaStep.t -> Prop) (ss ss' : list SagaStep.t) :
  Forall2 (fun a b => P a -> P b) ss ss' -> Forall P ss -> Forall P ss'.
Proof.
  induction 1 as [|a b l l' H _ IH]; [done|].
  intros [Ha Hl]%Forall_cons. constructor; auto.
Qed.

(** ** Saga.execute: the definition of the saga is kept *)

(** X1.  A run changes nothing of a saga but the run-time fields of its
    steps: the saga after the run resets to what the saga before it resets
    to, so name, order and number of the steps, their actions and their
    compensations are as before. *)
Theorem execute_keeps_definition saga initialData env :
  let saga' := (Saga.execute saga initialData env).1.1 in
  Saga.reset saga' = Saga.reset saga
  /\ Saga.getStepCount saga' = Saga.getStepCount saga
  /\ SagaStep.name <$> Saga.getSteps saga' = SagaStep.name <$> Saga.getSteps saga.
Proof.
  destruct (execute_related (fun a b => SagaStep.reset b = SagaStep.reset a))
    with (saga := saga) (initialData := initialData) (env := env) as [Hss Hn].
  - done.
  - intros s1 s2 s3 H1 H2. by rewrite H2.
  - intros s c e. unfold SagaStep.execute.
    by destruct (SagaStep.action s c).
  - intros s c e. unfold SagaStep.compensate.
    destruct (SagaStep.executed s); [|done].
    destruct (SagaStep.compensation s) as [comp|] eqn:Hc; [|done]. simpl.
    destruct (comp c); unfold SagaStep.reset; simpl; by rewrite ?Hc.
  - apply Forall2_fmap_eq in Hss. simpl.
    assert (Hreset : Saga.reset (Saga.execute saga initialData env).1.1
                     = Saga.reset saga)
      by (unfold Saga.reset; by rewrite Hss, Hn).
    split; [done|].
    apply (f_equal Saga.steps) in Hreset. unfold Saga.reset in Hreset.
    simpl in Hreset. split.
    + apply (f_equal length) in Hreset. by rewrite !length_fmap in Hreset.
    + apply (f_equal (fmap SagaStep.name)) in Hreset.
      by rewrite <- !list_fmap_compose in Hreset.
Qed.

(** ** The step flags *)

(** X2.  "Compensated only if executed" holds of a new step and of a reset
    step, and [step.execute], [step.compensate] and a whole run of the saga
    keep it on every step. *)
Theorem flags_stay_consistent saga initialData env :
  Forall flagsConsistent (Saga.steps saga) ->
  Forall flagsConsistent (Saga.steps (Saga.execute saga initialData env).1.1)
  /\ Forall flagsConsistent (Saga.steps (Saga.reset saga))
  /\ forall n act comp, flagsConsistent (SagaStep.new n act comp).
Proof.
  intros Hsaga. split; [|split].
  - eapply Forall2_Forall; [|exact Hsaga].
    apply (execute_related (fun a b => flagsConsistent a -> flagsConsistent b)).
    + done.
    + intros s1 s2 s3 H1 H2 H. auto.
    + intros s c e. unfold SagaStep.execute, flagsConsistent.
      destruct (SagaStep.action s c); simpl; auto.
    + intros s c e. unfold SagaStep.compensate, flagsConsistent.
      destruct (SagaStep.executed s) eqn:Hex; [|done].
      destruct (SagaStep.compensation s) as [comp|]; [|done]. simpl.
      destruct (comp c); simpl; auto.
  - unfold Saga.reset. simpl. clear Hsaga.
    induction (Saga.steps saga) as [|s ss IH]; [constructor|].
    rewrite fmap_cons. constructor; [|exact IH]. by intros H.
  - by intros n act comp.
Qed.

Lemma flags_stay_consistent_witness :
  Forall flagsConsistent (Saga.steps MoreSamples.sagaRolledBack)
  /\ Forall flagsConsistent
       (Saga.steps (Saga.execute MoreSamples.sagaRolledBack ∅ Samples.env0).1.1).
Proof.
  assert (H : Forall flagsConsistent (Saga.steps MoreSamples.sagaRolledBack)).
  { vm_compute. repeat (constructor; [auto|]). constructor. }
  split; [exact H|].
  exact (proj1 (flags_stay_consistent MoreSamples.sagaRolledBack ∅ Samples.env0 H)).
Defined.

(** ** Saga.execute in two phases *)

Lemma execute_forward saga initialData env :
  firstFailing saga initialData env
  = firstFailure (clock (startOf saga initialData env).2)
      (ticks (startOf saga initialData env).2) (Saga.steps saga)
      (startOf saga initialData env).1
  /\ match Saga.executeSteps (Saga.steps saga) (startOf saga initialData env).1
             (startOf saga initialData env).2 with
     | (ss, c1, e1, Returned _) =>
         exists dur,
           Saga.execute saga initialData env
           = (Saga.mk (Saga.name saga) ss,
              log (SagaCompleted (Saga.name saga) dur) (now e1).2,
              Returned (SagaContext.markCompleted (clock e1 (ticks e1)) c1))
     | (ss, c1, e1, Thrown e) =>
         Saga.execute saga initialData env
         = (let '(saga', c, env') :=
              Saga.compensate (Saga.mk (Saga.name saga) ss)
                (SagaContext.markFailed e (clock e1 (ticks e1)) c1)
                (now (log (SagaFailed (Saga.name saga) (message e)) e1)).2 in
            (saga', env', Returned c))
     end.
Proof.
  unfold Saga.execute, firstFailing, startOf, SagaContext.new,
    SagaContext.generateSagaId.
  cbn [now random fst snd clock entropy ticks draws console].
  split; [done|].
  destruct (Saga.executeSteps _ _ _) as [[[ss c1] e1] [v|e]]; [|done].
  cbn [now fst snd].
  destruct (getDuration_ended
    (SagaContext.markCompleted (clock e1 (ticks e1)) c1) _ eq_refl) as [dur Hd].
  rewrite Hd. by exists dur.
Qed.

Lemma executeSteps_log todo : forall context env,
  let '(ss, context', _, c) := Saga.executeSteps todo context env in
  SagaContext.stepName <$> SagaContext.executedSteps context'
  = (SagaContext.stepName <$> SagaContext.executedSteps context)
    ++ (SagaStep.name <$>
          take (default (length todo)
                  (firstFailure (clock env) (ticks env) todo context)) todo)
  /\ match firstError (clock env) (ticks env) todo context with
     | Some e =>
         c = Thrown e
         /\ exists k, firstFailure (clock env) (ticks env) todo context = Some k
              /\ SagaStep.error <$> ss !! k = Some (Some e)
     | None =>
         c = Returned tt
         /\ firstFailure (clock env) (ticks env) todo context = None
         /\ SagaStep.error <$> ss = SagaStep.error <$> todo
     end.
Proof.
  induction todo as [|step rest IH]; intros context env; simpl.
  - by rewrite app_nil_r.
  - destruct (SagaStep.action step context) as [d v|d e] eqn:Ha.
    + rewrite (execute_resolved _ _ _ _ _ Ha).
      specialize (IH
        (SagaContext.markStepExecuted (SagaStep.name step) v (clock env (ticks env))
           (SagaContext.with_data d context))
        (log (StepCompleted (SagaStep.name step))
           (now (log (StepExecuting (SagaStep.name step)) env)).2)).
      destruct (Saga.executeSteps rest _ _) as [[[rest' c1] e1] r1].
      cbn [now fst snd clock ticks log] in IH.
      destruct IH as [Hlog Herr]. split.
      * rewrite Hlog.
        assert (Hpush : SagaContext.stepName <$> SagaContext.executedSteps
                  (SagaContext.markStepExecuted (SagaStep.name step) v
                     (clock env (ticks env)) (SagaContext.with_data d context))
                = (SagaContext.stepName <$> SagaContext.executedSteps context)
                  ++ [SagaStep.name step])
          by (destruct v; simpl; by rewrite fmap_app).
        rewrite Hpush, <- app_assoc. f_equal.
        destruct (firstFailure _ _ rest _); done.
      * destruct (firstError _ _ rest _) as [e|].
        -- destruct Herr as (-> & k & Hk & Hek). split; [done|].
           exists (S k). by rewrite Hk.
        -- destruct Herr as (-> & Hk & Herrs). rewrite Hk.
           split; [done|]. split; [done|]. by rewrite !fmap_cons, Herrs.
    + rewrite (execute_rejected _ _ _ _ _ Ha). split.
      * simpl. by rewrite app_nil_r.
      * split; [done|]. by exists 0%nat.
Qed.

Lemma compensate_keeps_errors saga context env :
  SagaStep.error <$> Saga.steps (Saga.compensate saga context env).1.1
  = SagaStep.error <$> Saga.steps saga.
Proof.
  apply Forall2_fmap_eq.
  apply (compensate_related (fun a b => SagaStep.error b = SagaStep.error a)).
  - done.
  - intros s1 s2 s3 H1 H2. by rewrite H2.
  - intros s c e. unfold SagaStep.compensate.
    destruct (SagaStep.executed s); [|done].
    destruct (SagaStep.compensation s) as [comp|]; [|done]. simpl.
    by destruct (comp c).
Qed.

(** ** Saga.execute: the Context it returns *)

(** X3.  The execution log of the returned Context names the steps that
    executed, in the order of the saga: all of them after a successful
    run, those before the failing step otherwise. *)
Theorem execute_log_names_executed_steps saga initialData env :
  (fun c => SagaContext.stepName <$> SagaContext.getExecutedSteps c)
    <$> returnedContext (Saga.execute saga initialData env).2
  = Some (SagaStep.name
            <$> take (executedCount saga initialData env) (Saga.getSteps saga)).
Proof.
  unfold executedCount.
  destruct (execute_forward saga initialData env) as [-> Hrun].
  pose proof (executeSteps_log (Saga.steps saga)
    (startOf saga initialData env).1 (startOf saga initialData env).2) as Hlog.
  destruct (Saga.executeSteps _ _ _) as [[[ss c1] e1] [v|e]].
  - destruct Hrun as [dur ->]. destruct Hlog as [Hlog _]. simpl.
    unfold SagaContext.getExecutedSteps. simpl. by rewrite Hlog.
  - rewrite Hrun. destruct Hlog as [Hlog _].
    pose proof (compensate_spec (Saga.mk (Saga.name saga) ss)
      (SagaContext.markFailed e (clock e1 (ticks e1)) c1)
      (now (log (SagaFailed (Saga.name saga) (message e)) e1)).2) as Hcomp.
    destruct (Saga.compensate _ _ _) as [[saga' c2] e2].
    destruct (Hcomp _ _ _ eq_refl) as (_ & _ & _ & _ & _ & _ & Hkeep & _).
    simpl. unfold SagaContext.getExecutedSteps. rewrite Hkeep. simpl.
    by rewrite Hlog.
Qed.

(** X4.  The error of the returned Context is the error the first failing
    forward action threw, and the failing step holds the same error; after
    a run without failure the Context has no error and the steps' errors
    are as they were. *)
Theorem execute_reports_the_failing_error saga initialData env :
  let '(saga', _, c) := Saga.execute saga initialData env in
  (returnedContext c ≫= SagaContext.getError) = runError saga initialData env
  /\ match firstFailing saga initialData env with
     | Some k =>
         is_Some (runError saga initialData env)
         /\ (Saga.steps saga' !! k ≫= SagaStep.getError)
            = runError saga initialData env
     | None =>
         runError saga initialData env = None
         /\ SagaStep.getError <$> Saga.steps saga'
            = SagaStep.getError <$> Saga.steps saga
     end.
Proof.
  unfold runError.
  destruct (execute_forward saga initialData env) as [-> Hrun].
  pose proof (executeSteps_log (Saga.steps saga)
    (startOf saga initialData env).1 (startOf saga initialData env).2) as Hlog.
  pose proof (executeSteps_frame (Saga.steps saga)
    (startOf saga initialData env).1 (startOf saga initialData env).2) as Hframe.
  destruct (startOf saga initialData env) as [context0 env0] eqn:Hstart.
  cbn [fst snd] in *.
  assert (Herr0 : SagaContext.error context0 = None).
  { unfold startOf, SagaContext.new, SagaContext.generateSagaId in Hstart.
    cbn [now random fst snd] in Hstart. by injection Hstart as <- _. }
  destruct (Saga.executeSteps _ _ _) as [[[ss c1] e1] r].
  destruct (Hframe _ _ _ _ eq_refl) as (_ & (_ & _ & Herr1 & _) & _).
  destruct Hlog as [_ Hlog].
  destruct (firstError _ _ _ _) as [e|].
  - destruct Hlog as (-> & k & -> & Hk). rewrite Hrun.
    pose proof (compensate_spec (Saga.mk (Saga.name saga) ss)
      (SagaContext.markFailed e (clock e1 (ticks e1)) c1)
      (now (log (SagaFailed (Saga.name saga) (message e)) e1)).2) as Hcomp.
    pose proof (compensate_keeps_errors (Saga.mk (Saga.name saga) ss)
      (SagaContext.markFailed e (clock e1 (ticks e1)) c1)
      (now (log (SagaFailed (Saga.name saga) (message e)) e1)).2) as Hkeep.
    destruct (Saga.compensate _ _ _) as [[saga' c2] e2].
    destruct (Hcomp _ _ _ eq_refl) as (_ & _ & _ & _ & _ & Herr2 & _).
    simpl in *. unfold SagaContext.getError. rewrite Herr2. simpl.
    split; [done|]. split; [by eexists|].
    apply (f_equal (fun l => l !! k)) in Hkeep.
    rewrite !list_lookup_fmap in Hkeep. rewrite Hk in Hkeep.
    unfold SagaStep.getError.
    destruct (Saga.steps saga' !! k) as [s|]; [|done].
    simpl in *. by injection Hkeep.
  - destruct Hlog as (-> & -> & Herrs). destruct Hrun as [dur ->]. simpl.
    unfold SagaContext.getError. simpl. rewrite Herr1, Herr0. by repeat split.
Qed.

Lemma compensate_times saga context env :
  let '(_, context', _) := Saga.compensate saga context env in
  SagaContext.startTime context' = SagaContext.startTime context
  /\ is_Some (SagaContext.endTime context').
Proof.
  unfold Saga.compensate.
  destruct (Saga.compensateLoop _ _ _ _ _) as [[ss c1] e1] eqn:Hloop.
  apply compensateLoop_spec in Hloop as (_ & _ & ((_ & _ & _ & Hstart & _) & _) & _).
  cbn [now fst snd].
  destruct (SagaContext.getDuration _ _). simpl. rewrite Hstart. by eauto.
Qed.

(** X5.  The Context a run returns has its start and end time set: the
    start is the second clock reading of the run (the first went into the
    saga id), and [getDuration] on it is their difference whenever it is
    called, without reading the clock. *)
Theorem finished_run_has_fixed_duration saga initialData env :
  exists context stop,
    (Saga.execute saga initialData env).2 = Returned context
    /\ SagaContext.startTime context = Some (clock env (S (ticks env)))
    /\ SagaContext.endTime context = Some stop
    /\ forall later : Env,
         SagaContext.getDuration context later
         = (stop - clock env (S (ticks env)), later).
Proof.
  destruct (execute_forward saga initialData env) as [_ Hrun].
  pose proof (executeSteps_frame (Saga.steps saga)
    (startOf saga initialData env).1 (startOf saga initialData env).2) as Hframe.
  destruct (Saga.executeSteps _ _ _) as [[[ss c1] e1] r].
  destruct (Hframe _ _ _ _ eq_refl) as (_ & (_ & _ & _ & Hstart & _) & _).
  assert (Hstart0 : SagaContext.startTime (startOf saga initialData env).1
                    = Some (clock env (S (ticks env)))) by done.
  rewrite Hstart0 in Hstart.
  assert (Hdur : forall context stop,
    SagaContext.startTime context = Some (clock env (S (ticks env))) ->
    SagaContext.endTime context = Some stop ->
    forall later, SagaContext.getDuration context later
                  = (stop - clock env (S (ticks env)), later)).
  { intros context stop Hs He later. unfold SagaContext.getDuration.
    by rewrite Hs, He. }
  destruct r as [v|e].
  - destruct Hrun as [dur ->].
    exists (SagaContext.markCompleted (clock e1 (ticks e1)) c1), (clock e1 (ticks e1)).
    split; [done|]. split; [done|]. split; [done|]. by apply Hdur.
  - rewrite Hrun.
    pose proof (compensate_times (Saga.mk (Saga.name saga) ss)
      (SagaContext.markFailed e (clock e1 (ticks e1)) c1)
      (now (log (SagaFailed (Saga.name saga) (message e)) e1)).2) as Htimes.
    destruct (Saga.compensate _ _ _) as [[saga' c2] e2].
    destruct Htimes as [Hs [stop He]]. exists c2, stop.
    split; [done|]. simpl in Hs. rewrite Hstart in Hs.
    split; [done|]. split; [done|]. by apply Hdur.
Qed.

(** ** Runs on stale flags, and repeated rollbacks *)

Lemma execute_success_flags saga initialData env :
  firstFailing saga initialData env = None ->
  SagaStep.executed <$> Saga.steps (Saga.execute saga initialData env).1.1
  = replicate (length (Saga.steps saga)) true.
Proof.
  destruct (execute_forward saga initialData env) as [-> Hrun]. intros Hff.
  pose proof (executeSteps_succeeds (Saga.steps saga)
    (startOf saga initialData env).1 (startOf saga initialData env).2) as Hok.
  destruct (Saga.executeSteps _ _ _) as [[[ss c1] e1] r].
  destruct (Hok _ _ _ _ Hff eq_refl) as (-> & _ & Hflags).
  destruct Hrun as [dur ->]. done.
Qed.

Lemma execute_keeps_names saga initialData env :
  SagaStep.name <$> Saga.steps (Saga.execute saga initialData env).1.1
  = SagaStep.name <$> Saga.steps saga.
Proof.
  apply Forall2_fmap_eq.
  apply (execute_related (fun a b => SagaStep.name b = SagaStep.name a)).
  - done.
  - intros s1 s2 s3 H1 H2. by rewrite H2.
  - intros s c e. unfold SagaStep.execute. by destruct (SagaStep.action s c).
  - intros s c e. unfold SagaStep.compensate.
    destruct (SagaStep.executed s); [|done].
    destruct (SagaStep.compensation s) as [comp|]; [|done]. simpl.
    by destruct (comp c).
Qed.

(** X6.  Nothing resets the flags between runs.  When a saga has completed
    a run and is run again without [reset], and a forward action fails in
    the second run at whatever step, the rollback of the second run calls
    [step.compensate] on every step of the saga, last first: on the failing
    step and on the steps after it as well. *)
Theorem rerun_without_reset_compensates_every_step saga data1 data2 env :
  firstFailing saga data1 env = None ->
  let '(saga1, env1, _) := Saga.execute saga data1 env in
  is_Some (firstFailing saga1 data2 env1) ->
  let '(_, env2, _) := Saga.execute saga1 data2 env1 in
  compensateCalls (emitted env1 env2)
  = reverse (SagaStep.name <$> Saga.steps saga).
Proof.
  intros Hff.
  pose proof (execute_success_flags saga data1 env Hff) as Hflags.
  pose proof (execute_keeps_names saga data1 env) as Hnames.
  destruct (Saga.execute saga data1 env) as [[saga1 env1] c1].
  cbn [fst snd] in *. intros [k Hk].
  destruct (Saga.execute saga1 data2 env1) as [[saga2 env2] c2] eqn:Hex.
  apply execute_outcome in Hex as (context & out & -> & Hp & H).
  rewrite Hk in H.
  destruct H as (_ & _ & _ & _ & ss1 & (Hn & _) & Hex1 & _ & _ & _ & Hcalls & _).
  rewrite (printed_emitted _ _ _ Hp), Hcalls.
  assert (Hlen : length ss1 = length (Saga.steps saga)).
  { apply (f_equal length) in Hn, Hnames. rewrite !length_fmap in Hn, Hnames.
    congruence. }
  assert (Hall : SagaStep.executed <$> ss1
                 = replicate (length ss1) true ++ replicate 0 false).
  { rewrite Hex1, fmap_drop, Hflags, drop_replicate, <- replicate_add.
    rewrite app_nil_r. f_equal.
    apply (f_equal length) in Hex1.
    rewrite length_fmap, length_app, length_replicate, length_fmap,
      length_drop in Hex1.
    apply (f_equal length) in Hflags.
    rewrite length_fmap, length_replicate in Hflags. lia. }
  destruct (filterExecuted_prefix _ _ _ 0%nat Hall) as [_ ->].
  by rewrite firstn_all, Hn, Hnames.
Qed.

Lemma rerun_without_reset_compensates_every_step_witness :
  firstFailing Samples.sagaToggle ∅ Samples.env0 = None
  /\ is_Some (firstFailing MoreSamples.sagaCompleted MoreSamples.stop
                MoreSamples.envAfterFirstRun)
  /\ compensateCalls
       (emitted MoreSamples.envAfterFirstRun
          (Saga.execute MoreSamples.sagaCompleted MoreSamples.stop
             MoreSamples.envAfterFirstRun).1.2)
     = reverse (SagaStep.name <$> Saga.steps Samples.sagaToggle).
Proof.
  assert (H1 : firstFailing Samples.sagaToggle ∅ Samples.env0 = None)
    by reflexivity.
  assert (H2 : is_Some (firstFailing MoreSamples.sagaCompleted MoreSamples.stop
                          MoreSamples.envAfterFirstRun))
    by (exists 0%nat; reflexivity).
  split; [exact H1|]. split; [exact H2|].
  pose proof (rerun_without_reset_compensates_every_step
                Samples.sagaToggle ∅ MoreSamples.stop Samples.env0 H1) as H.
  unfold MoreSamples.sagaCompleted, MoreSamples.envAfterFirstRun in *.
  destruct (Saga.execute Samples.sagaToggle ∅ Samples.env0) as [[saga1 env1] c1].
  cbn [fst snd] in *. specialize (H H2).
  by destruct (Saga.execute saga1 MoreSamples.stop env1) as [[saga2 env2] c2].
Defined.

Lemma names_filter_view (p : SagaStep.t -> bool) (ss : list SagaStep.t) :
  (forall a b, view a = view b -> p a = p b) ->
  forall ss', view <$> ss' = view <$> ss ->
    SagaStep.name <$> filter p ss' = SagaStep.name <$> filter p ss.
Proof.
  intros Hp. induction ss as [|s ss IH]; intros [|s' ss']; try done.
  rewrite !fmap_cons. intros Heq.
  assert (Hv : view s' = view s) by congruence.
  assert (Hvs : view <$> ss' = view <$> ss) by congruence.
  pose proof (Hp _ _ Hv) as Hps.
  assert (Hn : SagaStep.name s' = SagaStep.name s) by (by injection Hv).
  destruct (p s) eqn:Hs.
  - rewrite !filter_cons_True by (by apply Is_true_true).
    by rewrite !fmap_cons, Hn, (IH _ Hvs).
  - rewrite !filter_cons_False by (by apply Is_true_false).
    by apply IH.
Qed.

(** X7.  The rollback does not look at the compensated flag: run a second
    time on the same saga, it calls [step.compensate] on the same steps in
    the same order and invokes the same compensations again. *)
Theorem rollback_repeats_the_compensations saga context env :
  let '(saga1, context1, env1) := Saga.compensate saga context env in
  let '(_, _, env2) := Saga.compensate saga1 context1 env1 in
  compensateCalls (emitted env1 env2) = compensateCalls (emitted env env1)
  /\ compensationsInvoked (emitted env1 env2)
     = compensationsInvoked (emitted env env1)
  /\ compensationsInvoked (emitted env env1)
     = reverse (SagaStep.name <$> filter compensable (Saga.steps saga)).
Proof.
  destruct (Saga.compensate saga context env) as [[saga1 context1] env1] eqn:H1.
  destruct (Saga.compensate saga1 context1 env1) as [[saga2 context2] env2] eqn:H2.
  apply compensate_spec in H1
    as (Hv & _ & _ & _ & _ & _ & _ & out1 & Hp1 & Hc1 & Hi1 & _).
  apply compensate_spec in H2
    as (_ & _ & _ & _ & _ & _ & _ & out2 & Hp2 & Hc2 & Hi2 & _).
  rewrite (printed_emitted _ _ _ Hp1), (printed_emitted _ _ _ Hp2).
  rewrite Hc1, Hc2, Hi1, Hi2.
  rewrite (names_filter_view SagaStep.isExecuted (Saga.steps saga)) by
    (try done; intros a b [= _ He _]; done).
  rewrite (names_filter_view compensable (Saga.steps saga)) by
    (try done; intros a b [= _ He Hc]; unfold compensable; by rewrite He, Hc).
  done.
Qed.

(** ** Saga.addStep *)

Lemma foldl_addStep specs : forall saga,
  Saga.steps
    (foldl (fun saga '(n, act, comp) => Saga.addStep n act comp saga) saga specs)
  = Saga.steps saga
    ++ ((fun '(n, act, comp) => SagaStep.new n act comp) <$> specs).
Proof.
  induction specs as [|[[n act] comp] specs IH]; intros saga; simpl.
  - by rewrite app_nil_r.
  - rewrite IH. simpl. by rewrite <- app_assoc.
Qed.

(** X8.  Chained [addStep] calls on a new saga give the steps in the order
    of the calls, one per call, none of them flagged executed or
    compensated. *)
Theorem addStep_chain_keeps_call_order name specs :
  Saga.getSteps (build name specs)
    = (fun '(n, act, comp) => SagaStep.new n act comp) <$> specs
  /\ SagaStep.name <$> Saga.getSteps (build name specs) = (fun spec => spec.1.1) <$> specs
  /\ Saga.getStepCount (build name specs) = length specs
  /\ Forall (fun s => SagaStep.isExecuted s = false
                      /\ SagaStep.isCompensated s = false)
       (Saga.getSteps (build name specs)).
Proof.
  assert (H : Saga.getSteps (build name specs)
              = (fun '(n, act, comp) => SagaStep.new n act comp) <$> specs)
    by (unfold build, Saga.getSteps; by rewrite foldl_addStep).
  unfold Saga.getStepCount. unfold Saga.getSteps in *. rewrite H.
  split; [done|]. split; [|split].
  - rewrite <- list_fmap_compose. apply list_fmap_ext. by intros i [[n act] comp] _.
  - by rewrite length_fmap.
  - clear H. induction specs as [|[[n act] comp] specs IH]; [constructor|].
    rewrite fmap_cons. by constructor.
Qed.

(** ** SagaContext *)

Lemma writeData_own key value d :
  key <> "__proto__" ->
  SagaContext.writeData key value d
  = SagaContext.mkData (<[key := value]> (SagaContext.own d))
                       (SagaContext.prototype d).
Proof.
  intros Hkey%String.eqb_neq. unfold SagaContext.writeData. rewrite Hkey.
  by destruct (SagaContext.own d !! key).
Qed.

(** X9.  For a key other than [__proto__], [set] then [get] of the key
    gives the value back and [has] is true, also when the value stored is
    [undefined]; the other keys, the status and the execution log are
    untouched.  A key that [has] does not find reads as [undefined]. *)
Theorem context_set_get_has key value c :
  key <> "__proto__" ->
  SagaContext.get key (SagaContext.set key value c) = SagaContext.Stored value
  /\ SagaContext.has key (SagaContext.set key value c) = true
  /\ (forall other, other <> key ->
        SagaContext.get other (SagaContext.set key value c) = SagaContext.get other c
        /\ SagaContext.has other (SagaContext.set key value c)
           = SagaContext.has other c)
  /\ SagaContext.getStatus (SagaContext.set key value c) = SagaContext.getStatus c
  /\ SagaContext.getExecutedSteps (SagaContext.set key value c)
     = SagaContext.getExecutedSteps c
  /\ (SagaContext.has key c = false
      -> SagaContext.get key c = SagaContext.Stored VUndefined).
Proof.
  intros Hkey.
  unfold SagaContext.get, SagaContext.has, SagaContext.set. simpl.
  rewrite writeData_own by done.
  unfold SagaContext.readData, SagaContext.inData. simpl.
  split; [by rewrite lookup_insert_eq|].
  split; [rewrite lookup_insert_eq; by rewrite bool_decide_eq_true_2|].
  split; [intros other Hne; by rewrite lookup_insert_ne|].
  split; [done|]. split; [done|].
  intros [Hown Hchain]%orb_false_iff. apply bool_decide_eq_false in Hown.
  destruct (SagaContext.own (SagaContext.data c) !! key) eqn:Hk;
    [exfalso; apply Hown; by eexists|].
  unfold SagaContext.fromObjectPrototype.
  destruct (SagaContext.prototype (SagaContext.data c)) as [| |props]; [|done|].
  - apply inherits_false in Hchain as [-> ->]. done.
  - apply orb_false_iff in Hchain as [Hprops [-> ->]%inherits_false].
    apply bool_decide_eq_false in Hprops.
    destruct (SagaContext.plainOwn props key) eqn:Hp; [|done].
    exfalso. apply Hprops. by eexists.
Qed.

Lemma context_set_get_has_witness :
  "orderId" <> "__proto__"
  /\ SagaContext.get "orderId" (SagaContext.set "orderId" VNull Samples.context0)
     = SagaContext.Stored VNull.
Proof.
  assert (H : "orderId" <> "__proto__") by discriminate.
  split; [exact H|].
  exact (proj1 (context_set_get_has "orderId" VNull Samples.context0 H)).
Defined.

(** What the hypothesis leaves out: assigning to [__proto__] stores
    nothing, and a plain object assigned to it becomes the prototype, so
    that its properties are read under the keys of the Context; built-in
    names are found on a new Context. *)
Example context_inherited_keys :
  let c := Samples.context0 in
  SagaContext.get "__proto__" (SagaContext.set "__proto__" (VNum 5) c)
    = SagaContext.Native "Object.prototype"
  /\ SagaContext.get "a" (SagaContext.set "__proto__" (VObject [("a", VNum 1)]) c)
     = SagaContext.Stored (VNum 1)
  /\ SagaContext.getAll (SagaContext.set "__proto__" (VObject [("a", VNum 1)]) c)
     = SagaContext.getAll c
  /\ SagaContext.get "toString" c = SagaContext.Native "toString"
  /\ SagaContext.has "toString" c = true
  /\ SagaContext.has "orderId" c = false.
Proof. by vm_compute. Qed.

Lemma apply_grows_log op c :
  SagaContext.executedSteps c `prefix_of` SagaContext.executedSteps (SagaContext.apply op c)
  /\ SagaContext.sagaId (SagaContext.apply op c) = SagaContext.sagaId c.
Proof.
  destruct op; simpl; (split; [|done]); try done.
  by apply prefix_app_r.
Qed.

(** X10.  No operation of a Context removes or rewrites an entry of its
    execution log, or changes the saga id: after any sequence of
    operations the old log is a prefix of the new one. *)
Theorem context_log_only_grows ops c :
  SagaContext.getExecutedSteps c
    `prefix_of` SagaContext.getExecutedSteps (SagaContext.applyAll ops c)
  /\ SagaContext.sagaId (SagaContext.applyAll ops c) = SagaContext.sagaId c.
Proof.
  unfold SagaContext.applyAll, SagaContext.getExecutedSteps.
  revert c. induction ops as [|op ops IH]; intros c; simpl; [done|].
  destruct (IH (SagaContext.apply op c)) as [Hlog Hid].
  destruct (apply_grows_log op c) as [Hlog1 Hid1].
  split; [by etrans|]. by rewrite Hid.
Qed.

(** ** SagaOrchestrator: registry and history *)

Lemma statistics_registered o :
  SagaOrchestrator.registeredSagas (SagaOrchestrator.getStatistics o)
  = size (SagaOrchestrator.sagas o).
Proof.
  unfold SagaOrchestrator.getStatistics.
  by destruct (foldl _ _ (SagaOrchestrator.executionHistory o)) as [[st sg] total].
Qed.

(** X11.  [registerSaga] is an upsert: the name then resolves to the saga
    just registered, also when the name was taken, in which case the
    number of registered sagas stays the same; other names and the history
    are untouched. *)
Theorem registerSaga_last_write_wins name saga o env :
  let o' := (SagaOrchestrator.registerSaga name saga o env).1 in
  SagaOrchestrator.getSaga name o' = Some saga
  /\ (forall other, other <> name ->
        SagaOrchestrator.getSaga other o' = SagaOrchestrator.getSaga other o)
  /\ SagaOrchestrator.executionHistory o' = SagaOrchestrator.executionHistory o
  /\ SagaOrchestrator.registeredSagas (SagaOrchestrator.getStatistics o')
     = match SagaOrchestrator.getSaga name o with
       | Some _ => SagaOrchestrator.registeredSagas (SagaOrchestrator.getStatistics o)
       | None => S (SagaOrchestrator.registeredSagas (SagaOrchestrator.getStatistics o))
       end.
Proof.
  unfold SagaOrchestrator.getSaga. simpl.
  split; [by rewrite lookup_insert_eq|].
  split; [intros other Hne; by rewrite lookup_insert_ne|].
  split; [done|]. rewrite !statistics_registered. simpl.
  destruct (SagaOrchestrator.sagas o !! name) as [old|] eqn:Hold.
  - rewrite <- (insert_delete_eq (SagaOrchestrator.sagas o)).
    rewrite map_size_insert_None by apply lookup_delete_eq.
    rewrite <- (insert_delete_id (SagaOrchestrator.sagas o) name old Hold) at 2.
    by rewrite map_size_insert_None by apply lookup_delete_eq.
  - by rewrite map_size_insert_None.
Qed.

Lemma recordExecution_bounded name context d o env :
  bounded o -> bounded (SagaOrchestrator.recordExecution name context d o env).1.
Proof.
  unfold bounded. intros H.
  rewrite (recordExecution_history _ _ _ _ _ H). simpl.
  rewrite length_drop, length_app. simpl. lia.
Qed.

(** X12.  The history of a new orchestrator is within [maxHistorySize], and
    [registerSaga], [recordExecution], [executeSaga] and [clearHistory]
    keep it so; none of them changes [maxHistorySize]. *)
Theorem history_stays_bounded o env :
  bounded SagaOrchestrator.new
  /\ (bounded o ->
      (forall name saga, bounded (SagaOrchestrator.registerSaga name saga o env).1)
      /\ (forall name context d,
            bounded (SagaOrchestrator.recordExecution name context d o env).1)
      /\ (forall name data, bounded (SagaOrchestrator.executeSaga name data o env).1.1)
      /\ bounded (SagaOrchestrator.clearHistory o env).1)
  /\ (forall name data,
        SagaOrchestrator.maxHistorySize
          (SagaOrchestrator.executeSaga name data o env).1.1
        = SagaOrchestrator.maxHistorySize o).
Proof.
  split; [unfold bounded; simpl; lia|]. split.
  - intros Hb. split; [done|]. split; [by intros; apply recordExecution_bounded|].
    split; [|unfold bounded; simpl; lia].
    intros name data. unfold SagaOrchestrator.executeSaga.
    destruct (SagaOrchestrator.sagas o !! name) as [saga|]; [|done].
    cbn [now fst snd].
    destruct (Saga.execute saga data _) as [[saga' env'] [context|e]]; [|done].
    cbn [now fst snd].
    pose proof (recordExecution_bounded name context
      (clock env' (ticks env') - clock env (ticks env))
      (SagaOrchestrator.mk (<[name := saga']> (SagaOrchestrator.sagas o))
         (SagaOrchestrator.executionHistory o) (SagaOrchestrator.maxHistorySize o))
      (now env').2 Hb) as H.
    by destruct (SagaOrchestrator.recordExecution _ _ _ _ _).
  - intros name data. unfold SagaOrchestrator.executeSaga.
    destruct (SagaOrchestrator.sagas o !! name) as [saga|]; [|done].
    cbn [now fst snd].
    destruct (Saga.execute saga data _) as [[saga' env'] [context|e]]; [|done].
    done.
Qed.

Lemma history_stays_bounded_witness :
  bounded MoreSamples.threeRuns
  /\ bounded (SagaOrchestrator.clearHistory MoreSamples.threeRuns Samples.env0).1.
Proof.
  assert (H : bounded MoreSamples.threeRuns) by (unfold bounded; simpl; lia).
  split; [exact H|].
  exact (proj2 (proj2 (proj2
    (proj1 (proj2 (history_stays_bounded MoreSamples.threeRuns Samples.env0)) H)))).
Defined.

(** X13.  [executeSaga] on a registered name records the run as the newest
    entry of the history, with the status, saga id, number of executed
    steps and error message of the Context it returns; the entries before
    it are the old history, less its oldest entry when the history was
    full.  The registry then holds the saga as the run left it, under the
    same name, and every other name as before. *)
Theorem executeSaga_records_the_run name saga initialData o env :
  SagaOrchestrator.sagas o !! name = Some saga ->
  (0 < SagaOrchestrator.maxHistorySize o)%nat ->
  let '(o', _, c) := SagaOrchestrator.executeSaga name initialData o env in
  let env1 := (now (log (OrchestratorExecuting name) env)).2 in
  exists context record,
    c = Returned context
    /\ SagaOrchestrator.executionHistory o'
       = drop (if decide (SagaOrchestrator.maxHistorySize o
                          < S (length (SagaOrchestrator.executionHistory o)))%nat
               then 1 else 0) (SagaOrchestrator.executionHistory o)
         ++ [record]
    /\ SagaOrchestrator.sagaName record = name
    /\ SagaOrchestrator.sagaId record = SagaContext.sagaId context
    /\ SagaOrchestrator.status record = SagaContext.getStatus context
    /\ SagaOrchestrator.executedSteps record
       = length (SagaContext.getExecutedSteps context)
    /\ SagaOrchestrator.error record = message <$> SagaContext.getError context
    /\ SagaOrchestrator.getSaga name o'
       = Some (Saga.execute saga initialData env1).1.1
    /\ forall other, other <> name ->
         SagaOrchestrator.getSaga other o' = SagaOrchestrator.getSaga other o.
Proof.
  intros Hsaga Hcap. unfold SagaOrchestrator.executeSaga. rewrite Hsaga.
  cbn [now fst snd].
  destruct (Saga.execute saga initialData _) as [[saga' env'] c] eqn:Hex.
  pose proof Hex as Hout.
  apply execute_outcome in Hout as (context & out & -> & _ & _).
  unfold SagaOrchestrator.recordExecution. cbn [now fst snd].
  set (record := SagaOrchestrator.mkRecord _ _ _ _ _ _ _).
  exists context, record. split; [done|]. simpl. split.
  - rewrite length_app. simpl.
    replace (length (SagaOrchestrator.executionHistory o) + 1)%nat
      with (S (length (SagaOrchestrator.executionHistory o))) by lia.
    destruct (decide _) as [Hfull|Hroom]; [|done].
    destruct (SagaOrchestrator.executionHistory o) as [|r h]; [simpl in *; lia|done].
  - repeat (split; [done|]). unfold SagaOrchestrator.getSaga. simpl.
    split; [by rewrite lookup_insert_eq|].
    intros other Hne. by rewrite lookup_insert_ne.
Qed.

Lemma executeSaga_records_the_run_witness :
  SagaOrchestrator.sagas Samples.orchestrator !! "order" = Some Samples.sagaFailC
  /\ (0 < SagaOrchestrator.maxHistorySize Samples.orchestrator)%nat
  /\ exists context,
       (SagaOrchestrator.executeSaga "order" ∅ Samples.orchestrator Samples.env0).2
       = Returned context.
Proof.
  assert (H1 : SagaOrchestrator.sagas Samples.orchestrator !! "order"
               = Some Samples.sagaFailC) by reflexivity.
  assert (H2 : (0 < SagaOrchestrator.maxHistorySize Samples.orchestrator)%nat)
    by (simpl; lia).
  split; [exact H1|]. split; [exact H2|].
  pose proof (executeSaga_records_the_run "order" Samples.sagaFailC ∅
                Samples.orchestrator Samples.env0 H1 H2) as H.
  destruct (SagaOrchestrator.executeSaga "order" ∅ Samples.orchestrator Samples.env0)
    as [[o' env'] c].
  destruct H as (context & record & -> & _). by exists context.
Defined.

(** X14.  What [getExecutionHistory(limit)] returns for every integer
    [limit]: for a positive one the newest [limit] entries, or all of them
    when fewer are stored; for zero or a negative one the history without
    its [-limit] oldest entries.  In every case the entries come in
    insertion order, and the default limit gives the newest ten. *)
Theorem getExecutionHistory_for_every_limit limit o :
  let h := SagaOrchestrator.executionHistory o in
  SagaOrchestrator.getExecutionHistory limit o
  = (if decide (0 < limit) then drop (length h - Z.to_nat limit) h
     else drop (Z.to_nat (- limit)) h)
  /\ SagaOrchestrator.getExecutionHistory limit o `suffix_of` h
  /\ SagaOrchestrator.getExecutionHistoryDefault o = drop (length h - 10) h.
Proof.
  intros h.
  assert (Hgen : forall l, SagaOrchestrator.getExecutionHistory l o
    = (if decide (0 < l) then drop (length h - Z.to_nat l) h
       else drop (Z.to_nat (- l)) h)).
  { intros l. unfold SagaOrchestrator.getExecutionHistory, SagaOrchestrator.slice.
    fold h. destruct (decide (0 < l)) as [Hpos|Hneg].
    - destruct (Z.ltb_spec (- l) 0) as [_|?]; [|lia]. f_equal. lia.
    - destruct (Z.ltb_spec (- l) 0) as [?|_]; [lia|].
      destruct (decide (- l <= Z.of_nat (length h))) as [Hle|Hgt].
      + by rewrite Z.min_l by lia.
      + rewrite Z.min_r by lia. rewrite Nat2Z.id.
        rewrite !drop_ge; [done|lia|lia]. }
  split; [apply Hgen|]. split.
  - rewrite Hgen. destruct (decide (0 < limit)); apply suffix_drop.
  - unfold SagaOrchestrator.getExecutionHistoryDefault. rewrite Hgen.
    destruct (decide (0 < 10)) as [_|?]; [|lia]. done.
Qed.

(** ** SagaOrchestrator.getStatistics *)

Lemma stored_increment key other (counts : gmap string SagaOrchestrator.Cell)
    (n : nat) :
  ObjectPrototype.inherits other = false ->
  counts !! other = SagaOrchestrator.Count <$> stored n ->
  SagaOrchestrator.increment key counts !! other
  = SagaOrchestrator.Count <$> stored (if decide (key = other) then S n else n).
Proof.
  unfold SagaOrchestrator.increment, stored.
  intros [Hproto Hmethod]%inherits_false H.
  destruct (decide (key = other)) as [->|Hne].
  - rewrite H. destruct (decide (n = 0%nat)) as [->|Hn]; simpl.
    + rewrite Hproto, Hmethod. by rewrite lookup_insert_eq.
    + rewrite lookup_insert_eq. do 2 f_equal. lia.
  - destruct (counts !! key) as [[k|s]|]; rewrite ?lookup_insert_ne by done;
      [done|done|].
    destruct (String.eqb key "__proto__"); [done|].
    destruct (ObjectPrototype.isMethod key); by rewrite lookup_insert_ne.
Qed.

Lemma statistics_fold_counts (history : list SagaOrchestrator.ExecutionRecord) :
  forall st sg total key (n m : nat),
    ObjectPrototype.inherits key = false ->
    st !! key = SagaOrchestrator.Count <$> stored n ->
    sg !! key = SagaOrchestrator.Count <$> stored m ->
    let '(st', sg', _) :=
      foldl (fun '(st, sg, total) record =>
               (SagaOrchestrator.increment (SagaOrchestrator.status record) st,
                SagaOrchestrator.increment (SagaOrchestrator.sagaName record) sg,
                total + SagaOrchestrator.duration record))
            (st, sg, total) history in
    st' !! key
    = SagaOrchestrator.Count
        <$> stored (n + occurrences SagaOrchestrator.status key history)
    /\ sg' !! key
      = SagaOrchestrator.Count
          <$> stored (m + occurrences SagaOrchestrator.sagaName key history).
Proof.
  unfold occurrences.
  induction history as [|record history IH];
    intros st sg total key n m Hkey Hst Hsg.
  - simpl. by rewrite !Nat.add_0_r.
  - cbn [foldl].
    specialize (IH _ _ (total + SagaOrchestrator.duration record) key _ _ Hkey
      (stored_increment (SagaOrchestrator.status record) key st n Hkey Hst)
      (stored_increment (SagaOrchestrator.sagaName record) key sg m Hkey Hsg)).
    destruct (foldl _ _ history) as [[st' sg'] total'].
    destruct IH as (-> & ->). rewrite !filter_cons.
    split.
    + do 2 f_equal.
      destruct (decide (SagaOrchestrator.status record = key)); simpl; lia.
    + do 2 f_equal.
      destruct (decide (SagaOrchestrator.sagaName record = key)); simpl; lia.
Qed.

(** X15.  Under a status, and under a saga name, that is not a property
    name of [Object.prototype], the tables of [getStatistics] count
    exactly: the number of retained entries that carry it, whatever the
    other entries are, and no entry at all for a status or name that does
    not occur. *)
Theorem statistics_count_exactly key o :
  ObjectPrototype.inherits key = false ->
  SagaOrchestrator.byStatus (SagaOrchestrator.getStatistics o) !! key
    = SagaOrchestrator.Count
        <$> stored (occurrences SagaOrchestrator.status key
                      (SagaOrchestrator.executionHistory o))
  /\ SagaOrchestrator.bySaga (SagaOrchestrator.getStatistics o) !! key
    = SagaOrchestrator.Count
        <$> stored (occurrences SagaOrchestrator.sagaName key
                      (SagaOrchestrator.executionHistory o)).
Proof.
  intros Hkey. unfold SagaOrchestrator.getStatistics.
  pose proof (statistics_fold_counts (SagaOrchestrator.executionHistory o)
    ∅ ∅ 0 key 0%nat 0%nat Hkey (lookup_empty _) (lookup_empty _)) as H.
  destruct (foldl _ _ (SagaOrchestrator.executionHistory o)) as [[st sg] total].
  destruct H as (Hs & Hg). simpl in *. by rewrite Hs, Hg.
Qed.

Lemma statistics_count_exactly_witness :
  ObjectPrototype.inherits "order" = false
  /\ SagaOrchestrator.bySaga (SagaOrchestrator.getStatistics MoreSamples.threeRuns)
       !! "order" = Some (SagaOrchestrator.Count 2).
Proof.
  assert (H : ObjectPrototype.inherits "order" = false) by reflexivity.
  split; [exact H|].
  exact (eq_trans (proj2 (statistics_count_exactly "order" MoreSamples.threeRuns H))
                  eq_refl).
Defined.

(** A saga registered and run as [constructor] gets a string for a count,
    and the entries of the other sagas are counted all the same. *)
Example statistics_of_inherited_name :
  let record name := SagaOrchestrator.mkRecord name "saga_1" "COMPLETED" 5 0 None 1 in
  let o := SagaOrchestrator.mk ∅
             [record "constructor"; record "order"; record "constructor"] 100 in
  SagaOrchestrator.bySaga (SagaOrchestrator.getStatistics o) !! "constructor"
    = Some (SagaOrchestrator.Text "function Object() { [native code] }11")
  /\ SagaOrchestrator.bySaga (SagaOrchestrator.getStatistics o) !! "order"
    = Some (SagaOrchestrator.Count 1).
Proof. by vm_compute. Qed.

Lemma statistics_fold_total (history : list SagaOrchestrator.ExecutionRecord) :
  forall st sg total,
    (foldl (fun '(st, sg, total) record =>
              (SagaOrchestrator.increment (SagaOrchestrator.status record) st,
               SagaOrchestrator.increment (SagaOrchestrator.sagaName record) sg,
               total + SagaOrchestrator.duration record))
           (st, sg, total) history).2
    = total + totalDuration history.
Proof.
  induction history as [|record history IH]; intros st sg total.
  - simpl. lia.
  - cbn [foldl]. rewrite IH. unfold totalDuration. simpl. lia.
Qed.

Lemma statistics_average o :
  SagaOrchestrator.averageDuration (SagaOrchestrator.getStatistics o)
  = if decide (0 < length (SagaOrchestrator.executionHistory o))%nat
    then SagaOrchestrator.roundDiv
           (totalDuration (SagaOrchestrator.executionHistory o))
           (length (SagaOrchestrator.executionHistory o))
    else 0.
Proof.
  unfold SagaOrchestrator.getStatistics.
  pose proof (statistics_fold_total (SagaOrchestrator.executionHistory o)
    ∅ ∅ 0) as H.
  destruct (foldl _ _ (SagaOrchestrator.executionHistory o)) as [[st sg] total].
  simpl in H. subst total. simpl. by rewrite Z.add_0_l.
Qed.

Lemma totalDuration_bounds lo hi (history : list SagaOrchestrator.ExecutionRecord) :
  Forall (fun record => lo <= SagaOrchestrator.duration record <= hi) history ->
  Z.of_nat (length history) * lo <= totalDuration history
  <= Z.of_nat (length history) * hi.
Proof.
  induction 1 as [|record history Hr _ IH]; simpl; [lia|].
  unfold totalDuration in *. simpl. lia.
Qed.

(** X16.  With at least one entry retained, [averageDuration] is the mean
    of the retained durations rounded to the nearest integer, a half
    rounding up, and so lies between the shortest and the longest of them;
    with no entry it is 0 and nothing is divided. *)
Theorem averageDuration_is_the_rounded_mean o :
  let h := SagaOrchestrator.executionHistory o in
  let n := Z.of_nat (length h) in
  let a := SagaOrchestrator.averageDuration (SagaOrchestrator.getStatistics o) in
  (h = [] -> a = 0)
  /\ (h <> [] ->
      2 * totalDuration h - n < 2 * n * a <= 2 * totalDuration h + n
      /\ forall lo hi,
           Forall (fun record => lo <= SagaOrchestrator.duration record <= hi) h ->
           lo <= a <= hi).
Proof.
  intros h n a. unfold a. rewrite statistics_average. fold h. split.
  - intros ->. done.
  - intros Hne.
    assert (Hn : 0 < n) by (unfold n; destruct h; [done|simpl; lia]).
    destruct (decide _) as [_|Hz]; [|unfold n in Hn; lia].
    unfold SagaOrchestrator.roundDiv. fold n.
    pose proof (Z.div_mod (2 * totalDuration h + n) (2 * n) ltac:(lia)) as Hdm.
    pose proof (Z.mod_pos_bound (2 * totalDuration h + n) (2 * n) ltac:(lia)) as Hm.
    set (q := (2 * totalDuration h + n) `div` (2 * n)) in *.
    assert (Hq : 2 * totalDuration h - n < 2 * n * q <= 2 * totalDuration h + n)
      by lia.
    split; [exact Hq|].
    intros lo hi Hall. pose proof (totalDuration_bounds lo hi h Hall) as Hb.
    fold n in Hb. split; nia.
Qed.

Lemma averageDuration_is_the_rounded_mean_witness :
  SagaOrchestrator.executionHistory MoreSamples.threeRuns <> []
  /\ SagaOrchestrator.averageDuration
       (SagaOrchestrator.getStatistics MoreSamples.threeRuns) = 12
  /\ 10 <= SagaOrchestrator.averageDuration
             (SagaOrchestrator.getStatistics MoreSamples.threeRuns) <= 14.
Proof.
  assert (H : SagaOrchestrator.executionHistory MoreSamples.threeRuns <> [])
    by discriminate.
  split; [exact H|]. split; [reflexivity|].
  apply (proj2 (proj2 (averageDuration_is_the_rounded_mean MoreSamples.threeRuns) H)
           10 14).
  repeat constructor; simpl; lia.
Defined.

(** ** InventoryService *)

Lemma checkAvailable_passed (inv : gmap string InventoryService.Product)
    (order : list InventoryService.Item) :
  InventoryService.checkAvailable inv order = None ->
  Forall (fun item =>
            exists p, inv !! InventoryService.itemProductId item = Some p
                      /\ InventoryService.quantity item <= InventoryService.stock p)
         order.
Proof.
  induction order as [|item rest IH]; simpl; [constructor|].
  destruct (inv !! InventoryService.itemProductId item) as [p|] eqn:Hp; [|done].
  destruct (Z.ltb_spec (InventoryService.stock p) (InventoryService.quantity item));
    [done|].
  intros Hrest. constructor; [by exists p|by apply IH].
Qed.

Lemma requested_unknown (inv : gmap string InventoryService.Product)
    (order : list InventoryService.Item) product :
  Forall (fun item => is_Some (inv !! InventoryService.itemProductId item)) order ->
  inv !! product = None ->
  InventoryService.requested product order = 0.
Proof.
  induction 1 as [|item rest [p Hp] _ IH]; intros Hnone; [done|]. simpl.
  destruct (String.eqb_spec (InventoryService.itemProductId item) product)
    as [Heq|_]; [congruence|by apply IH].
Qed.

Lemma reserveItems_spec (order : list InventoryService.Item) :
  forall inv : gmap string InventoryService.Product,
  Forall (fun item => is_Some (inv !! InventoryService.itemProductId item)) order ->
  exists inv' reserved lines,
    InventoryService.reserveItems inv order = (inv', reserved, lines, None)
    /\ forall product,
         inv' !! product
         = restock (- InventoryService.requested product order) <$> inv !! product
         /\ reservedTotal product reserved
            = InventoryService.requested product order.
Proof.
  induction order as [|item rest IH]; intros inv Hknown.
  - exists inv, [], []. split; [done|]. intros product. split; [|done].
    destruct (inv !! product) as [[i n st]|]; [|done].
    simpl. unfold restock. simpl. do 2 f_equal. lia.
  - apply Forall_cons in Hknown as [[p Hp] Hrest]. simpl. rewrite Hp.
    set (inv1 := <[InventoryService.itemProductId item := _]> inv).
    destruct (IH inv1) as (inv' & reserved & lines & Hrun & Hspec).
    { eapply Forall_impl; [exact Hrest|]. intros x Hx. unfold inv1.
      destruct (decide (InventoryService.itemProductId item
                        = InventoryService.itemProductId x)) as [<-|Hne].
      - rewrite lookup_insert_eq. by eexists.
      - by rewrite lookup_insert_ne. }
    rewrite Hrun. eexists _, _, _. split; [done|].
    intros product. destruct (Hspec product) as [Hinv Htot]. simpl.
    destruct (String.eqb_spec (InventoryService.itemProductId item) product)
      as [<-|Hne].
    + split; [|by rewrite Htot].
      rewrite Hinv. unfold inv1. rewrite lookup_insert_eq, Hp. simpl.
      unfold restock. simpl. do 2 f_equal. lia.
    + split; [|done]. rewrite Hinv. unfold inv1. by rewrite lookup_insert_ne.
Qed.

Lemma releaseItems_spec (reserved : list InventoryService.ReservedItem) :
  forall inv product,
    (InventoryService.releaseItems inv reserved).1 !! product
    = restock (reservedTotal product reserved) <$> inv !! product.
Proof.
  induction reserved as [|item rest IH]; intros inv product; simpl.
  - destruct (inv !! product) as [[i n st]|]; [|done].
    simpl. unfold restock. simpl. do 2 f_equal. lia.
  - destruct (inv !! InventoryService.reservedProductId item) as [p|] eqn:Hp.
    + specialize (IH (<[InventoryService.reservedProductId item :=
         InventoryService.mkProduct (InventoryService.productId p)
           (InventoryService.name p)
           (InventoryService.stock p + InventoryService.reservedQuantity item)]> inv)
         product).
      destruct (InventoryService.releaseItems _ rest) as [inv' lines].
      simpl in *. rewrite IH.
      destruct (String.eqb_spec (InventoryService.reservedProductId item) product)
        as [<-|Hne].
      * rewrite lookup_insert_eq, Hp. simpl. unfold restock. simpl.
        do 2 f_equal. lia.
      * by rewrite lookup_insert_ne.
    + rewrite IH.
      destruct (String.eqb_spec (InventoryService.reservedProductId item) product)
        as [<-|Hne]; [by rewrite Hp|done].
Qed.

(** What [reserveInventory] returns, by the outcome of its check loop. *)
Lemma reserveInventory_cases order lines s env :
  match InventoryService.checkAvailable (InventoryService.inventory s) lines with
  | Some e =>
      InventoryService.reserveInventory order lines s env
      = (s, env, [InventoryService.Reserving order], Thrown e)
  | None =>
      exists inv' reserved out,
        let id := "RES_" +:+ pretty (clock env (ticks env)) +:+ "_"
                  +:+ entropy env (draws env) in
        let reservation :=
          InventoryService.mkReservation id order reserved "RESERVED"
            (clock env (S (ticks env))) None in
        InventoryService.reserveInventory order lines s env
        = (InventoryService.mk inv'
             (<[id := reservation]> (InventoryService.reservations s)),
           (now (random (now env).2).2).2, out, Returned reservation)
        /\ forall product,
             inv' !! product
             = restock (- InventoryService.requested product lines)
                 <$> InventoryService.inventory s !! product
             /\ reservedTotal product reserved
                = InventoryService.requested product lines
  end.
Proof.
  unfold InventoryService.reserveInventory.
  destruct (InventoryService.checkAvailable _ lines) as [e|] eqn:Hcheck; [done|].
  apply checkAvailable_passed in Hcheck.
  destruct (reserveItems_spec lines (InventoryService.inventory s))
    as (inv' & reserved & out & Hrun & Hspec).
  { eapply Forall_impl; [exact Hcheck|]. intros x (p & Hp & _). by eexists. }
  cbn [now random fst snd clock entropy ticks draws]. rewrite Hrun.
  by eexists _, _, _.
Qed.

Lemma getStock_restock delta (inv inv' : gmap string InventoryService.Product)
    reservations reservations' product :
  inv' !! product = restock delta <$> inv !! product ->
  (inv !! product = None -> delta = 0) ->
  InventoryService.getStock product (InventoryService.mk inv' reservations')
  = InventoryService.getStock product (InventoryService.mk inv reservations) + delta.
Proof.
  unfold InventoryService.getStock. simpl. intros -> Hnone.
  destruct (inv !! product) as [p|]; simpl; [done|]. rewrite Hnone by done. lia.
Qed.

(** X17.  [reserveInventory] throws only from its check loop, before it has
    touched anything: when it throws, the inventory, the reservations and
    the clock are as they were, and the error is that of the first line
    that names an unknown product or asks for more than is in stock. *)
Theorem reserveInventory_throws_before_reserving order lines s env :
  let '(s', env', _, c) := InventoryService.reserveInventory order lines s env in
  match c with
  | Thrown e =>
      s' = s /\ env' = env
      /\ InventoryService.checkAvailable (InventoryService.inventory s) lines = Some e
  | Returned _ =>
      InventoryService.checkAvailable (InventoryService.inventory s) lines = None
  end.
Proof.
  pose proof (reserveInventory_cases order lines s env) as H.
  destruct (InventoryService.checkAvailable _ lines) as [e|].
  - by rewrite H.
  - destruct H as (inv' & reserved & out & -> & _). done.
Qed.

(** X18.  A reservation that succeeds takes from every product exactly the
    quantity the order asks of it over all its lines, leaves the other
    products alone, and is stored under the id it returns with status
    RESERVED and the same quantities. *)
Theorem reserveInventory_takes_what_is_ordered order lines s env :
  let '(s', _, _, c) := InventoryService.reserveInventory order lines s env in
  match c with
  | Returned reservation =>
      InventoryService.getReservation
        (InventoryService.reservationId reservation) s' = Some reservation
      /\ InventoryService.status reservation = "RESERVED"
      /\ InventoryService.orderId reservation = order
      /\ forall product,
           InventoryService.getStock product s'
           = InventoryService.getStock product s
             - InventoryService.requested product lines
           /\ reservedTotal product (InventoryService.items reservation)
              = InventoryService.requested product lines
  | Thrown _ => True
  end.
Proof.
  pose proof (reserveInventory_cases order lines s env) as H.
  destruct (InventoryService.checkAvailable _ lines) as [e|] eqn:Hcheck.
  - by rewrite H.
  - destruct H as (inv' & reserved & out & -> & Hspec).
    unfold InventoryService.getReservation. simpl.
    split; [by rewrite lookup_insert_eq|]. split; [done|]. split; [done|].
    intros product. destruct (Hspec product) as [Hinv Htot]. split; [|done].
    destruct s as [inv reservations]. simpl in *.
    rewrite (getStock_restock _ inv inv' reservations _ product Hinv); [lia|].
    intros Hnone. apply checkAvailable_passed in Hcheck.
    rewrite (requested_unknown inv lines product); [done| |done].
    eapply Forall_impl; [exact Hcheck|]. intros x (p & Hp & _). by eexists.
Qed.

(** X19.  Releasing a reservation right after it was made puts the
    inventory back as it was before the reservation, product by product,
    and marks the reservation RELEASED. *)
Theorem release_restores_the_inventory order lines s env :
  let '(s1, env1, _, c) := InventoryService.reserveInventory order lines s env in
  match c with
  | Returned reservation =>
      let id := InventoryService.reservationId reservation in
      let '(s2, _, _, c2) := InventoryService.releaseInventory id s1 env1 in
      c2 = Returned (InventoryService.Released id)
      /\ InventoryService.inventory s2 = InventoryService.inventory s
      /\ (InventoryService.status <$> InventoryService.getReservation id s2)
         = Some "RELEASED"
  | Thrown _ => True
  end.
Proof.
  pose proof (reserveInventory_cases order lines s env) as H.
  destruct (InventoryService.checkAvailable _ lines) as [e|] eqn:Hcheck.
  - by rewrite H.
  - destruct H as (inv' & reserved & out & -> & Hspec). simpl.
    unfold InventoryService.releaseInventory. simpl.
    rewrite lookup_insert_eq. simpl.
    pose proof (releaseItems_spec reserved inv') as Hrel.
    destruct (InventoryService.releaseItems inv' reserved) as [inv2 out2].
    simpl in *. split; [done|]. split.
    + apply map_eq. intros product. rewrite Hrel.
      destruct (Hspec product) as [-> ->].
      destruct (InventoryService.inventory s !! product) as [[i n st]|]; [|done].
      simpl. unfold restock. simpl. do 2 f_equal. lia.
    + unfold InventoryService.getReservation. simpl.
      by rewrite lookup_insert_eq.
Qed.

(** X20.  [releaseInventory] gives the stock back once.  After a release
    that succeeded, releasing the same reservation again returns
    ALREADY_RELEASED and changes neither the inventory, nor the
    reservations, nor the clock; an id that was never reserved throws and
    changes nothing either. *)
Theorem releaseInventory_releases_once id s env :
  let '(s1, env1, _, c1) := InventoryService.releaseInventory id s env in
  match c1 with
  | Returned (InventoryService.Released _) =>
      (InventoryService.releaseInventory id s1 env1).1.1
      = (s1, env1)
      /\ (InventoryService.releaseInventory id s1 env1).2
         = Returned InventoryService.AlreadyReleased
  | Returned InventoryService.AlreadyReleased => s1 = s /\ env1 = env
  | Thrown e =>
      s1 = s /\ env1 = env
      /\ InventoryService.getReservation id s = None
      /\ e = mkError ("Reservation not found: " +:+ id)
  end.
Proof.
  unfold InventoryService.releaseInventory, InventoryService.getReservation.
  destruct (InventoryService.reservations s !! id) as [reservation|]; [|done].
  destruct (String.eqb (InventoryService.status reservation) "RELEASED"); [done|].
  destruct (InventoryService.releaseItems _ _) as [inv out].
  cbn [now fst snd]. simpl. by rewrite lookup_insert_eq.
Qed.

Lemma reserveInventory_stock order lines s env product :
  InventoryService.checkAvailable (InventoryService.inventory s) lines = None ->
  InventoryService.getStock product
    (InventoryService.reserveInventory order lines s env).1.1.1
  = InventoryService.getStock product s - InventoryService.requested product lines.
Proof.
  intros Hcheck.
  pose proof (reserveInventory_cases order lines s env) as H.
  rewrite Hcheck in H. destruct H as (inv' & reserved & out & -> & Hspec).
  destruct (Hspec product) as [Hinv _].
  destruct s as [inv reservations]. simpl in *.
  rewrite (getStock_restock _ inv inv' reservations _ product Hinv); [lia|].
  intros Hnone. apply checkAvailable_passed in Hcheck.
  rewrite (requested_unknown inv lines product); [done| |done].
  eapply Forall_impl; [exact Hcheck|]. intros x (p & Hp & _). by eexists.
Qed.

Lemma requested_distinct (order : list InventoryService.Item) product :
  NoDup (InventoryService.itemProductId <$> order) ->
  InventoryService.requested product order = 0
  \/ exists item, item ∈ order
       /\ InventoryService.itemProductId item = product
       /\ InventoryService.requested product order = InventoryService.quantity item.
Proof.
  induction order as [|item rest IH]; [by left|].
  rewrite fmap_cons, NoDup_cons. intros [Hnew Hrest]. simpl.
  destruct (String.eqb_spec (InventoryService.itemProductId item) product)
    as [Heq|Hne].
  - right. exists item. split; [by left|]. split; [done|].
    destruct (IH Hrest) as [->|(other & Hin & Hother & _)]; [lia|].
    exfalso. apply Hnew. rewrite Heq, <- Hother.
    by apply list_elem_of_fmap_2.
  - destruct (IH Hrest) as [?|(other & Hin & Hother & Hreq)]; [by left|].
    right. exists other. split; [by right|done].
Qed.

(** X21.  When no product occurs on two lines of the order, a reservation
    never drives a stock below zero: with every stock at 0 or above
    before, every stock is at 0 or above after, whether the call succeeded
    or threw. *)
Theorem distinct_lines_keep_stock_nonnegative order lines s env :
  (forall product p,
     InventoryService.inventory s !! product = Some p ->
     0 <= InventoryService.stock p) ->
  NoDup (InventoryService.itemProductId <$> lines) ->
  forall product,
    0 <= InventoryService.getStock product
           (InventoryService.reserveInventory order lines s env).1.1.1.
Proof.
  intros Hpos Hdistinct product.
  assert (Hbefore : 0 <= InventoryService.getStock product s).
  { unfold InventoryService.getStock.
    destruct (InventoryService.inventory s !! product) as [p|] eqn:Hp; [|done].
    by eapply Hpos. }
  pose proof (reserveInventory_stock order lines s env product) as Hstock.
  pose proof (reserveInventory_cases order lines s env) as H.
  destruct (InventoryService.checkAvailable _ lines) as [e|] eqn:Hcheck.
  - by rewrite H.
  - rewrite Hstock by done.
    destruct (requested_distinct lines product Hdistinct)
      as [->|(item & Hin & Hitem & ->)]; [lia|].
    apply checkAvailable_passed in Hcheck.
    rewrite Forall_forall in Hcheck. destruct (Hcheck item Hin) as (p & Hp & Hq).
    unfold InventoryService.getStock. rewrite <- Hitem, Hp. lia.
Qed.

Lemma distinct_lines_keep_stock_nonnegative_witness :
  (forall product p,
     InventoryService.inventory InventoryService.new !! product = Some p ->
     0 <= InventoryService.stock p)
  /\ NoDup (InventoryService.itemProductId <$> MoreSamples.order)
  /\ forall product,
       0 <= InventoryService.getStock product
              (InventoryService.reserveInventory "ORD_1" MoreSamples.order
                 InventoryService.new Samples.env0).1.1.1.
Proof.
  assert (H1 : forall product p,
             InventoryService.inventory InventoryService.new !! product = Some p ->
             0 <= InventoryService.stock p).
  { apply map_Forall_lookup. unfold InventoryService.new,
      InventoryService.initializeInventory. simpl.
    repeat (apply map_Forall_insert_2; [simpl; lia|]). apply map_Forall_empty. }
  assert (H2 : NoDup (InventoryService.itemProductId <$> MoreSamples.order)).
  { simpl. apply NoDup_cons. split; [|apply NoDup_singleton].
    rewrite list_elem_of_singleton. discriminate. }
  split; [exact H1|]. split; [exact H2|].
  exact (distinct_lines_keep_stock_nonnegative "ORD_1" MoreSamples.order
           InventoryService.new Samples.env0 H1 H2).
Defined.

(** The same product on two lines: each line passes the check against the
    five monitors in stock, and the two together take six. *)
Example reserve_double_line_oversells :
  let '(s', _, _, c) :=
    InventoryService.reserveInventory "ORD_2" MoreSamples.doubleOrder
      InventoryService.new Samples.env0 in
  InventoryService.getStock "PROD_004" s' = -1
  /\ (InventoryService.status <$> returnedContext c) = Some "RESERVED".
Proof. by vm_compute. Qed.

(** An order for more than is in stock: the error names the product, and
    the mouse on the line before it is not taken. *)
Example reserve_big_order_throws :
  let '(s', _, _, c) :=
    InventoryService.reserveInventory "ORD_3" MoreSamples.bigOrder
      InventoryService.new Samples.env0 in
  c = Thrown (mkError "Insufficient stock for Monitor. Available: 5, Requested: 10")
  /\ InventoryService.getStock "PROD_002" s' = 50.
Proof. by vm_compute. Qed.

(** ** Saga.reset *)

Lemma execute_then_reset saga initialData env :
  Saga.reset (Saga.execute saga initialData env).1.1 = Saga.reset saga.
Proof.
  destruct (execute_related (fun a b => SagaStep.reset b = SagaStep.reset a))
    with (saga := saga) (initialData := initialData) (env := env) as [Hss Hn].
  - done.
  - intros s1 s2 s3 H1 H2. by rewrite H2.
  - intros s c e. unfold SagaStep.execute. by destruct (SagaStep.action s c).
  - intros s c e. unfold SagaStep.compensate.
    destruct (SagaStep.executed s); [|done].
    destruct (SagaStep.compensation s) as [comp|] eqn:Hc; [|done]. simpl.
    destruct (comp c); unfold SagaStep.reset; simpl; by rewrite ?Hc.
  - apply Forall2_fmap_eq in Hss. unfold Saga.reset. by rewrite Hss, Hn.
Qed.

(** X22.  [reset] after a run gives back the saga as it was assembled:
    for a saga made by chained [addStep] calls, whatever the run did,
    resetting it yields the very saga the calls had built, and resetting
    twice is resetting once. *)
Theorem reset_after_run_restores_the_built_saga name specs initialData env :
  Saga.reset (Saga.execute (build name specs) initialData env).1.1
  = build name specs
  /\ forall saga, Saga.reset (Saga.reset saga) = Saga.reset saga.
Proof.
  split.
  - rewrite execute_then_reset. unfold Saga.reset, build.
    assert (Hname : forall saga,
      Saga.name (foldl (fun saga '(n, act, comp) => Saga.addStep n act comp saga)
                   saga specs) = Saga.name saga).
    { induction specs as [|[[n act] comp] specs IH]; intros saga; [done|].
      simpl. by rewrite IH. }
    set (built := foldl _ _ specs).
    assert (Hsteps : SagaStep.reset <$> Saga.steps built = Saga.steps built).
    { unfold built. rewrite foldl_addStep. simpl.
      rewrite <- list_fmap_compose. apply list_fmap_ext.
      by intros i [[n act] comp] _. }
    rewrite Hsteps. by destruct built.
  - intros saga. unfold Saga.reset. simpl. f_equal.
    rewrite <- list_fmap_compose. by apply list_fmap_ext.
Qed.
